(** * memalign.c: aligned allocation on top of malloc/free

    A shallow embedding of [aligned_malloc] and [aligned_free] from
    [src/memalign.c], and the properties the specification states about
    them.

    Modelling decisions, all taken from the C source:
    - [size_t] and [uintptr_t] are unsigned integers of [ptr_bits] bits
      (a flat address space); they are values of [Z] and every arithmetic
      result is reduced with [wrap].  [uint32_t] and [uint16_t] ([offset_t])
      are reduced with [wrap 32] and [wrap 16].
    - [sizeof(offset_t)] is 2 (eight-bit bytes).
    - memory is a finite map from byte addresses to byte values; a 16-bit
      store writes two bytes in the byte order of the platform.  The
      bounds of the blocks [malloc] answered are not part of the memory: a
      store is defined at every address, and a statement that relies on
      the header lying inside its block says so with [valid_block] on the
      block that was requested.
    - [malloc] and [free] are the environment: the answers [malloc] is
      going to give are part of the world, and every call is recorded in
      a trace, so that "what was requested" and "what was freed" can be
      stated.
    - [assert] aborts the program when its condition is false, unless the
      translation unit is compiled with [NDEBUG], in which case it
      expands to nothing. *)

From Stdlib Require Import ZArith Lia List Bool String Ascii.
From stdpp Require Import base gmap.
Import ListNotations.
Local Open Scope Z_scope.

(** ** Machine integers *)

Definition wrap (bits x : Z) : Z := x mod 2 ^ bits.

Record platform := Platform {
  ptr_bits : Z;          (* width of size_t and of uintptr_t *)
  big_endian : bool      (* byte order of a multi-byte store *)
}.

(** [typedef uint16_t offset_t;  #define PTR_OFFSET_SZ sizeof(offset_t)] *)
Definition offset_bits : Z := 16.
Definition PTR_OFFSET_SZ : Z := 2.

(** The null pointer. *)
Definition NULL : Z := 0.

(** [#define align_up(num, align) (((num) + ((align) - 1)) & ~((align) - 1))]
    evaluated on [size_t]/[uintptr_t] operands. *)
Definition align_up (pf : platform) (num align : Z) : Z :=
  let W := ptr_bits pf in
  Z.land (wrap W (num + wrap W (align - 1)))
         (wrap W (Z.lnot (wrap W (align - 1)))).

(** The condition of the assertion, [(align & (align - 1)) == 0]. *)
Definition pow2_check (pf : platform) (align : Z) : bool :=
  Z.land align (wrap (ptr_bits pf) (align - 1)) =? 0.

(** ** The world: memory, the underlying allocator, the call trace *)

Inductive event :=
| EvMalloc (n p : Z)     (* malloc(n) was called and answered p *)
| EvFree (p : Z).        (* free(p) was called *)

Record world := World {
  mem : gmap Z Z;        (* bytes that have been written *)
  answers : list Z;      (* what the next calls of malloc will return *)
  trace : list event     (* calls made so far, oldest first *)
}.

Inductive outcome (A : Type) :=
| Returned (a : A)       (* the function returned a *)
| Aborted                (* a failed assert called abort() *)
| Undefined.             (* a byte that was never written was read *)
Arguments Returned {A} a.
Arguments Aborted {A}.
Arguments Undefined {A}.

Definition M (A : Type) : Type := world -> outcome A * world.

Definition ret {A} (a : A) : M A := fun w => (Returned a, w).

Definition bind {A B} (m : M A) (k : A -> M B) : M B :=
  fun w =>
    match m w with
    | (Returned a, w') => k a w'
    | (Aborted, w') => (Aborted, w')
    | (Undefined, w') => (Undefined, w')
    end.

Notation "x <- m ;; k" := (bind m (fun x => k))
  (at level 100, m at next level, right associativity).
Notation "m ;;; k" := (bind m (fun _ => k))
  (at level 100, right associativity).

(** [assert(c)]: nothing under NDEBUG, otherwise abort when [c] is false. *)
Definition assert_ (ndebug c : bool) : M unit :=
  fun w => if ndebug || c then (Returned tt, w) else (Aborted, w).

(** [malloc(n)]: the environment answers with the next of its answers; an
    environment with nothing left to give answers NULL. *)
Definition malloc (n : Z) : M Z :=
  fun w =>
    match answers w with
    | [] => (Returned NULL,
             World (mem w) [] (trace w ++ [EvMalloc n NULL]))
    | p :: rest => (Returned p,
                    World (mem w) rest (trace w ++ [EvMalloc n p]))
    end.

(** [free(p)] *)
Definition free (p : Z) : M unit :=
  fun w => (Returned tt, World (mem w) (answers w) (trace w ++ [EvFree p])).

(** The two byte addresses of the [offset_t] object at address [a], low
    byte first. *)
Definition byte_addrs (pf : platform) (a : Z) : Z * Z :=
  let a1 := wrap (ptr_bits pf) (a + 1) in
  if big_endian pf then (a1, a) else (a, a1).

(** A store of [v] into the [offset_t] object at address [a].  The store
    is defined at every address: that [a] lies in a block [malloc]
    answered is a premise of the theorems that need it. *)
Definition store16 (pf : platform) (a v : Z) : M unit :=
  fun w =>
    let '(lo, hi) := byte_addrs pf a in
    (Returned tt,
     World (<[hi := (v / 256) mod 256]> (<[lo := v mod 256]> (mem w)))
           (answers w) (trace w)).

(** A load of the [offset_t] object at address [a]. *)
Definition load16 (pf : platform) (a : Z) : M Z :=
  fun w =>
    let '(lo, hi) := byte_addrs pf a in
    match mem w !! lo, mem w !! hi with
    | Some l, Some h => (Returned (l + 256 * h), w)
    | _, _ => (Undefined, w)
    end.

(** ** The two functions of memalign.c *)

(** [uint32_t hdr_size = PTR_OFFSET_SZ + (align - 1);]: the sum is computed
    in [size_t] and then converted to [uint32_t]. *)
Definition hdr_size (pf : platform) (align : Z) : Z :=
  let W := ptr_bits pf in
  wrap 32 (wrap W (PTR_OFFSET_SZ + wrap W (align - 1))).

(** [void * aligned_malloc(size_t align, size_t size)] *)
Definition aligned_malloc (pf : platform) (ndebug : bool) (align size : Z)
  : M Z :=
  let W := ptr_bits pf in
  assert_ ndebug (pow2_check pf align) ;;;
  if negb (align =? 0) && negb (size =? 0) then
    let hdr_size := hdr_size pf align in
    p <- malloc (wrap W (size + hdr_size)) ;;
    if negb (p =? NULL) then
      let ptr := align_up pf (wrap W (p + PTR_OFFSET_SZ)) align in
      store16 pf (wrap W (ptr - PTR_OFFSET_SZ))
                 (wrap offset_bits (wrap W (ptr - p))) ;;;
      ret ptr
    else ret NULL
  else ret NULL.

(** [void aligned_free(void * ptr)] *)
Definition aligned_free (pf : platform) (ndebug : bool) (ptr : Z) : M unit :=
  let W := ptr_bits pf in
  assert_ ndebug (negb (ptr =? NULL)) ;;;
  offset <- load16 pf (wrap W (ptr - PTR_OFFSET_SZ)) ;;
  free (wrap W (ptr - offset)).

(** ** Vocabulary of the specification *)

(** A nonzero power of two that fits [size_t]. *)
Definition power_of_two (pf : platform) (a : Z) : Prop :=
  exists k, 0 <= k < ptr_bits pf /\ a = 2 ^ k.

(** A value of type [size_t] / [uintptr_t]. *)
Definition in_range (pf : platform) (x : Z) : Prop :=
  0 <= x < 2 ^ ptr_bits pf.

(** [headerReserve = headerWidth + (alignment - 1)] *)
Definition headerReserve (a : Z) : Z := PTR_OFFSET_SZ + (a - 1).

(** The requests of [malloc] recorded in a trace. *)
Definition malloc_calls (t : list event) : list event :=
  List.filter (fun e => match e with EvMalloc _ _ => true | _ => false end) t.

(** Common platforms, used to run the model. *)
Definition lp64 : platform := Platform 64 false.
Definition ilp32 : platform := Platform 32 false.
Definition ilp32_be : platform := Platform 32 true.

Definition world0 (ans : list Z) : world := World ∅ ans [].

(** The three allocations and releases of [main]. *)
Definition reference_usage (pf : platform) : M (Z * Z * Z) :=
  x <- aligned_malloc pf false 8 100 ;;
  y <- aligned_malloc pf false 32 1035 ;;
  z <- aligned_malloc pf false 4 8 ;;
  aligned_free pf false x ;;;
  aligned_free pf false y ;;;
  aligned_free pf false z ;;;
  ret (x, y, z).

(** A platform the C standard allows: [size_t] has at least 16 bits. *)
Definition supported (pf : platform) : Prop := 16 <= ptr_bits pf.

(** ** The contract of the underlying allocator *)

(** A non-null answer of [malloc(n)] is the start of [n] bytes of the
    address space. *)
Definition valid_block (pf : platform) (p n : Z) : Prop :=
  0 < p /\ p + n <= 2 ^ ptr_bits pf.

(** The number of bytes [aligned_malloc] asks [malloc] for, the argument
    [size + hdr_size] of the call. *)
Definition requested (pf : platform) (align size : Z) : Z :=
  wrap (ptr_bits pf) (size + hdr_size pf align).

(** ** Statements of the specification, as predicates on a run *)

(** The round trip: [aligned_malloc] gets [p] from [malloc] and returns
    [q]; [aligned_free q] then hands exactly [p] to [free]. *)
Definition round_trip (pf : platform) (nd : bool) (a s p : Z) (w : world)
  : Prop :=
  exists q w1 w2,
    aligned_malloc pf nd a s w = (Returned q, w1)
    /\ aligned_free pf nd q w1 = (Returned tt, w2)
    /\ trace w2
       = trace w ++ [EvMalloc (wrap (ptr_bits pf) (s + hdr_size pf a)) p;
                     EvFree p].

(** The offset found in the header after [aligned_malloc] lies between the
    header width and the header reserve, and the aligned pointer lies in
    [[p + headerWidth, p + headerReserve]]. *)
Definition header_in_bounds (pf : platform) (nd : bool) (a s p : Z)
  (w : world) : Prop :=
  exists q w1 off,
    aligned_malloc pf nd a s w = (Returned q, w1)
    /\ load16 pf (wrap (ptr_bits pf) (q - PTR_OFFSET_SZ)) w1
       = (Returned off, w1)
    /\ PTR_OFFSET_SZ <= off <= headerReserve a
    /\ p + PTR_OFFSET_SZ <= q <= p + headerReserve a.

(** The call returns the failure value and [malloc] was not called. *)
Definition returns_failure (pf : platform) (nd : bool) (a s : Z) (w : world)
  : Prop :=
  exists w', aligned_malloc pf nd a s w = (Returned NULL, w')
             /\ malloc_calls (trace w') = malloc_calls (trace w).

(** The call returns a pointer that is not a multiple of the alignment. *)
Definition returns_misaligned (pf : platform) (nd : bool) (a s : Z)
  (w : world) : Prop :=
  exists q w', aligned_malloc pf nd a s w = (Returned q, w')
               /\ q <> NULL /\ q mod a <> 0.

(** ** The demonstration program

    [main] prints with [printf]; what it hands to [printf] is kept beside
    the world as a list of pieces, a pointer printed with [%p] being kept
    as its address.  The list is what reaches the output when the program
    exits normally; nothing is stated about it on a path that aborts,
    where buffered output need not be flushed. *)

Inductive out :=
| OutStr (s : string)    (* literal text of a format string *)
| OutPtr (p : Z).        (* a pointer printed with %p *)

Definition IO (A : Type) : Type :=
  world * list out -> outcome A * (world * list out).

Definition io_ret {A} (a : A) : IO A := fun st => (Returned a, st).

Definition io_bind {A B} (m : IO A) (k : A -> IO B) : IO B :=
  fun st =>
    match m st with
    | (Returned a, st') => k a st'
    | (Aborted, st') => (Aborted, st')
    | (Undefined, st') => (Undefined, st')
    end.

(** A computation on the world, run inside a program that prints. *)
Definition lift {A} (m : M A) : IO A :=
  fun st =>
    let '(r, w') := m (fst st) in (r, (w', snd st)).

Definition printf (pieces : list out) : IO unit :=
  fun st => (Returned tt, (fst st, snd st ++ pieces)).

Definition nl : string := String (ascii_of_nat 10) EmptyString.
Definition tab : string := String (ascii_of_nat 9) EmptyString.

(** [int main(void)] of memalign.c.  The assignments [x = NULL] and the
    like after each release touch locals that are not read again. *)
Definition main (pf : platform) (ndebug : bool) : IO Z :=
  io_bind (lift (malloc 103)) (fun p =>
  io_bind (lift (malloc 1000)) (fun q =>
  io_bind (lift (malloc 7)) (fun r =>
  io_bind (lift (aligned_malloc pf ndebug 8 100)) (fun x =>
  io_bind (lift (aligned_malloc pf ndebug 32 1035)) (fun y =>
  io_bind (lift (aligned_malloc pf ndebug 4 8)) (fun z =>
  io_bind (printf [OutStr "Raw malloc pointers, no alignment enforced:";
                   OutStr nl]) (fun _ =>
  io_bind (printf [OutStr tab; OutPtr p; OutStr ", "; OutPtr q;
                   OutStr ", "; OutPtr r; OutStr nl]) (fun _ =>
  io_bind (printf [OutStr tab;
                   OutStr "Note: you may see 4-8 byte alignment on host PC";
                   OutStr nl]) (fun _ =>
  io_bind (printf [OutStr "aligned to 8: "; OutPtr x; OutStr nl]) (fun _ =>
  io_bind (printf [OutStr "aligned to 32: "; OutPtr y; OutStr nl]) (fun _ =>
  io_bind (printf [OutStr "aligned to 4: "; OutPtr z; OutStr nl]) (fun _ =>
  io_bind (lift (aligned_free pf ndebug x)) (fun _ =>
  io_bind (lift (aligned_free pf ndebug y)) (fun _ =>
  io_bind (lift (aligned_free pf ndebug z)) (fun _ =>
  io_bind (lift (free p)) (fun _ =>
  io_bind (lift (free q)) (fun _ =>
  io_bind (lift (free r)) (fun _ =>
  io_ret 0)))))))))))))))))).

(** The pointers a program printed. *)
Definition printed_pointers (o : list out) : list Z :=
  flat_map (fun x => match x with OutPtr p => [p] | OutStr _ => [] end) o.

(** The calls of [free] recorded in a trace. *)
Definition free_calls (t : list event) : list event :=
  List.filter (fun e => match e with EvFree _ => true | _ => false end) t.

(** Two blocks that share no byte. *)
Definition disjoint_blocks (p1 n1 p2 n2 : Z) : Prop :=
  p1 + n1 <= p2 \/ p2 + n2 <= p1.

(** Closed comparisons of machine-sized numbers, by evaluation. *)
Ltac zclosed :=
  repeat split;
  first [ lia
        | apply Z.leb_le; vm_compute; reflexivity
        | apply Z.ltb_lt; vm_compute; reflexivity ].

(** ** Arithmetic of the machine integers *)

Lemma wrap_range bits x : 0 <= bits -> 0 <= wrap bits x < 2 ^ bits.
Proof. intros Hb. unfold wrap. apply Z.mod_pos_bound. lia. Qed.

Lemma wrap_small bits x : 0 <= x < 2 ^ bits -> wrap bits x = x.
Proof. intros Hx. unfold wrap. apply Z.mod_small. exact Hx. Qed.

Lemma wrap_wrap_sub bits x y :
  wrap bits (x - wrap bits y) = wrap bits (x - y).
Proof. unfold wrap. apply Zminus_mod_idemp_r. Qed.

Lemma wrap_wrap_add bits x y :
  wrap bits (wrap bits x + y) = wrap bits (x + y).
Proof. unfold wrap. apply Zplus_mod_idemp_l. Qed.

Section Arith.
Variable pf : platform.
Let W := ptr_bits pf.

Lemma pow2_lt k : 0 <= k < W -> 0 < 2 ^ k < 2 ^ W.
Proof.
  intros Hk. split.
  - apply Z.pow_pos_nonneg; lia.
  - apply Z.pow_lt_mono_r; lia.
Qed.

Lemma pow2_le_half k : 0 <= k < W -> 2 * 2 ^ k <= 2 ^ W.
Proof.
  intros Hk. replace (2 * 2 ^ k) with (2 ^ (k + 1)).
  - apply Z.pow_le_mono_r; lia.
  - rewrite Z.pow_add_r by lia. lia.
Qed.

(** [2 ^ W] is a multiple of every alignment [2 ^ k]. *)
Lemma pow2_split k : 0 <= k < W -> 2 ^ W = 2 ^ k * 2 ^ (W - k).
Proof.
  intros Hk. rewrite <- Z.pow_add_r by lia. f_equal. lia.
Qed.

Lemma wrap_mod_pow2 k x : 0 <= k < W -> wrap W x mod 2 ^ k = x mod 2 ^ k.
Proof.
  intros Hk. unfold wrap. pose proof (pow2_lt k Hk) as Hp.
  apply Z.mod_mod_divide.
  exists (2 ^ (W - k)). rewrite (pow2_split k Hk). lia.
Qed.

(** The mask [~(align - 1)] clears the low [k] bits. *)
Lemma mask_pow2 k y :
  0 <= k < W -> 0 <= y < 2 ^ W ->
  Z.land y (wrap W (Z.lnot (wrap W (2 ^ k - 1)))) = 2 ^ k * (y / 2 ^ k).
Proof.
  intros Hk Hy. pose proof (pow2_lt k Hk) as Hp.
  rewrite (wrap_small W (2 ^ k - 1)) by lia.
  replace (2 ^ k - 1) with (Z.ones k) by (rewrite Z.ones_equiv; lia).
  unfold wrap. rewrite <- Z.land_ones by lia.
  rewrite (Z.land_comm (Z.lnot _)), Z.land_assoc.
  rewrite Z.land_ones by lia. rewrite Z.mod_small by exact Hy.
  rewrite <- Z.ldiff_land, Z.ldiff_ones_r by lia.
  rewrite Z.shiftl_mul_pow2, Z.shiftr_div_pow2 by lia. lia.
Qed.

Lemma align_up_pow2 k x :
  0 <= k < W ->
  align_up pf x (2 ^ k)
  = 2 ^ k * (wrap W (x + (2 ^ k - 1)) / 2 ^ k).
Proof.
  intros Hk. pose proof (pow2_lt k Hk) as Hp.
  unfold align_up. fold W.
  rewrite mask_pow2 by (auto; apply wrap_range; lia).
  rewrite (wrap_small W (2 ^ k - 1)) by lia. reflexivity.
Qed.

(** The result of [align_up] on a power of two is a multiple of it. *)
Lemma align_up_mod k x :
  0 <= k < W -> align_up pf x (2 ^ k) mod 2 ^ k = 0.
Proof.
  intros Hk. rewrite align_up_pow2 by exact Hk.
  rewrite Z.mul_comm. apply Z_mod_mult.
Qed.

Lemma align_up_range k x :
  0 <= k < W -> 0 <= align_up pf x (2 ^ k) < 2 ^ W.
Proof.
  intros Hk. pose proof (pow2_lt k Hk) as Hp.
  rewrite align_up_pow2 by exact Hk.
  pose proof (wrap_range W (x + (2 ^ k - 1)) ltac:(lia)) as Hy.
  set (y := wrap W (x + (2 ^ k - 1))) in *.
  pose proof (Z.mul_div_le y (2 ^ k) ltac:(lia)).
  assert (0 <= y / 2 ^ k) by (apply Z.div_pos; lia).
  nia.
Qed.

(** The padding added by [align_up]: it is what is missing from [x] to
    the next multiple of the alignment, also when the addition wraps. *)
Lemma align_up_pad k x :
  0 <= k < W -> 0 <= x < 2 ^ W ->
  wrap W (align_up pf x (2 ^ k) - x) = (- x) mod 2 ^ k.
Proof.
  intros Hk Hx. pose proof (pow2_lt k Hk) as Hp.
  rewrite align_up_pow2 by exact Hk.
  set (a := 2 ^ k) in *.
  set (y := wrap W (x + (a - 1))).
  assert (Hya : y mod a = (x + (a - 1)) mod a)
    by (apply wrap_mod_pow2; exact Hk).
  assert (Ey : a * (y / a) = y - y mod a)
    by (pose proof (Z.div_mod y a ltac:(lia)); lia).
  rewrite Ey, Hya.
  (* y - x is a - 1 up to a multiple of 2 ^ W *)
  assert (Hw : wrap W (y - (x + (a - 1)) mod a - x)
               = wrap W ((a - 1) - (x + (a - 1)) mod a)).
  { pose proof (Z.div_mod (x + (a - 1)) (2 ^ W) ltac:(lia)) as Hd.
    fold (wrap W (x + (a - 1))) in Hd. fold y in Hd.
    replace (y - (x + (a - 1)) mod a - x)
      with ((a - 1) - (x + (a - 1)) mod a
            + (- ((x + (a - 1)) / 2 ^ W)) * 2 ^ W) by lia.
    unfold wrap. apply Z_mod_plus_full. }
  rewrite Hw.
  pose proof (Z.mod_pos_bound (x + (a - 1)) a ltac:(lia)) as Ht.
  rewrite wrap_small by lia.
  apply Z.mod_unique_pos with (q := - ((x + (a - 1)) / a)).
  - lia.
  - pose proof (Z.div_mod (x + (a - 1)) a ltac:(lia)). lia.
Qed.

Lemma align_up_pad_bound k x :
  0 <= k < W -> 0 <= x < 2 ^ W ->
  0 <= wrap W (align_up pf x (2 ^ k) - x) <= 2 ^ k - 1.
Proof.
  intros Hk Hx. rewrite align_up_pad by assumption.
  pose proof (pow2_lt k Hk).
  pose proof (Z.mod_pos_bound (- x) (2 ^ k) ltac:(lia)). lia.
Qed.

(** Rounding up a multiple of the alignment changes nothing. *)
Lemma align_up_aligned k x :
  0 <= k < W -> 0 <= x < 2 ^ W -> x mod 2 ^ k = 0 ->
  align_up pf x (2 ^ k) = x.
Proof.
  intros Hk Hx Hm.
  pose proof (align_up_pad k x Hk Hx) as Hpad.
  pose proof (align_up_range k x Hk) as Hr.
  pose proof (pow2_lt k Hk) as Hp.
  assert (E : (- x) mod 2 ^ k = 0).
  { apply Z.mod_divide in Hm; [|lia]. apply Z.mod_divide; [lia|].
    apply Z.divide_opp_r. exact Hm. }
  rewrite E in Hpad. unfold wrap in Hpad.
  apply Z.mod_divide in Hpad; [|lia].
  destruct Hpad as [c Hc].
  assert (c = 0); [|lia].
  destruct (Z.lt_trichotomy c 0) as [Hlt|[Heq|Hgt]]; [|exact Heq|].
  - assert (c * 2 ^ W <= - 2 ^ W) by nia. lia.
  - assert (2 ^ W <= c * 2 ^ W) by nia. lia.
Qed.

(** The assertion accepts every power of two. *)
Lemma pow2_check_pow2 a : power_of_two pf a -> pow2_check pf a = true.
Proof.
  intros (k & Hk & ->). pose proof (pow2_lt k Hk) as Hp.
  unfold pow2_check. fold W. rewrite wrap_small by lia.
  replace (2 ^ k - 1) with (Z.ones k) by (rewrite Z.ones_equiv; lia).
  rewrite Z.land_ones by lia. rewrite Z.mod_same by lia. reflexivity.
Qed.

(** The assertion accepts zero. *)
Lemma pow2_check_zero : pow2_check pf 0 = true.
Proof. unfold pow2_check. rewrite Z.land_0_l. reflexivity. Qed.

(** The assertion accepts nothing else. *)
Lemma pow2_check_sound a :
  0 < a < 2 ^ W -> pow2_check pf a = true -> power_of_two pf a.
Proof.
  intros Ha Hc. unfold pow2_check in Hc. fold W in Hc.
  rewrite wrap_small in Hc by lia. apply Z.eqb_eq in Hc.
  pose proof (Z.log2_spec a ltac:(lia)) as Hl.
  pose proof (Z.log2_nonneg a) as Hn.
  set (k := Z.log2 a) in *.
  assert (Hk : 0 <= k < W).
  { split; [exact Hn|].
    assert (0 <= W).
    { destruct (Z.lt_ge_cases W 0) as [Hneg|]; [|assumption].
      rewrite (Z.pow_neg_r 2 W Hneg) in Ha. lia. }
    apply (Z.pow_lt_mono_r_iff 2); lia. }
  exists k. split; [exact Hk|].
  destruct (Z.eq_dec a (2 ^ k)) as [E|NE]; [exact E|exfalso].
  assert (Hb : Z.testbit (Z.land a (a - 1)) k = true).
  { rewrite Z.land_spec. apply andb_true_intro. split.
    - apply Z.bit_log2. lia.
    - replace k with (Z.log2 (a - 1)).
      + apply Z.bit_log2. lia.
      + apply Z.log2_unique; [exact Hn|]. lia. }
  rewrite Hc in Hb. rewrite Z.bits_0 in Hb. discriminate.
Qed.

End Arith.

(** ** Running the two functions *)

Section Run.
Variable pf : platform.
Let W := ptr_bits pf.

(** A header that has been stored is read back unchanged, in either
    byte order. *)
Lemma load16_store16 a v w :
  1 <= W -> 0 <= a < 2 ^ W -> 0 <= v < 2 ^ offset_bits ->
  load16 pf a (snd (store16 pf a v w))
  = (Returned v, snd (store16 pf a v w)).
Proof.
  intros HW Ha Hv. unfold load16, store16, byte_addrs. fold W.
  assert (H2 : 2 <= 2 ^ W)
    by (change 2 with (2 ^ 1) at 1; apply Z.pow_le_mono_r; lia).
  assert (Hne : a <> wrap W (a + 1)).
  { unfold wrap. destruct (Z.eq_dec (a + 1) (2 ^ W)) as [E|NE].
    - rewrite E, Z.mod_same by lia. lia.
    - rewrite Z.mod_small by lia. lia. }
  assert (Hsplit : v mod 256 + 256 * ((v / 256) mod 256) = v).
  { change (2 ^ offset_bits) with 65536 in Hv.
    rewrite (Z.mod_small (v / 256)).
    - pose proof (Z.div_mod v 256 ltac:(lia)). lia.
    - split; [apply Z.div_pos; lia | apply Z.div_lt_upper_bound; lia]. }
  destruct (big_endian pf); simpl.
  - rewrite lookup_insert_ne by congruence.
    rewrite !lookup_insert_eq. rewrite Hsplit. reflexivity.
  - rewrite lookup_insert_ne by congruence.
    rewrite !lookup_insert_eq. rewrite Hsplit. reflexivity.
Qed.

(** [aligned_malloc] on the path where the assertion passes, both
    arguments are nonzero and [malloc] answers [p <> NULL]. *)
Lemma aligned_malloc_run nd a s p rest w :
  nd || pow2_check pf a = true -> a <> 0 -> s <> 0 ->
  answers w = p :: rest -> p <> NULL ->
  let q := align_up pf (wrap W (p + PTR_OFFSET_SZ)) a in
  let n := wrap W (s + hdr_size pf a) in
  aligned_malloc pf nd a s w
  = (Returned q,
     snd (store16 pf (wrap W (q - PTR_OFFSET_SZ))
                  (wrap offset_bits (wrap W (q - p)))
                  (World (mem w) rest (trace w ++ [EvMalloc n p])))).
Proof.
  intros Hc Ha Hs Hans Hp q n.
  unfold aligned_malloc, bind, assert_, malloc, ret. fold W.
  rewrite Hc.
  destruct (Z.eqb_spec a 0) as [|_]; [contradiction|].
  destruct (Z.eqb_spec s 0) as [|_]; [contradiction|].
  cbn [negb andb]. cbv beta iota. rewrite Hans.
  destruct (Z.eqb_spec p NULL) as [|_]; [contradiction|].
  cbn [negb]. cbv beta iota. fold n. fold q.
  unfold store16. destruct (byte_addrs pf _). reflexivity.
Qed.

(** [aligned_malloc] when [malloc] answers NULL. *)
Lemma aligned_malloc_null nd a s w :
  nd || pow2_check pf a = true -> a <> 0 -> s <> 0 ->
  hd NULL (answers w) = NULL ->
  let n := wrap W (s + hdr_size pf a) in
  aligned_malloc pf nd a s w
  = (Returned NULL,
     World (mem w) (tl (answers w)) (trace w ++ [EvMalloc n NULL])).
Proof.
  intros Hc Ha Hs Hans n.
  unfold aligned_malloc, bind, assert_, malloc, ret. fold W.
  rewrite Hc.
  destruct (Z.eqb_spec a 0) as [|_]; [contradiction|].
  destruct (Z.eqb_spec s 0) as [|_]; [contradiction|].
  cbn [negb andb]. cbv beta iota. fold n.
  destruct (answers w) as [|p rest]; simpl in *.
  - reflexivity.
  - subst p. reflexivity.
Qed.

(** [aligned_malloc] when an argument is zero and the assertion passes
    or is compiled out. *)
Lemma aligned_malloc_guard nd a s w :
  nd || pow2_check pf a = true -> a = 0 \/ s = 0 ->
  aligned_malloc pf nd a s w = (Returned NULL, w).
Proof.
  intros Hc Hz. unfold aligned_malloc, bind, assert_, ret. rewrite Hc.
  destruct Hz as [-> | ->]; simpl.
  - reflexivity.
  - rewrite andb_false_r. reflexivity.
Qed.

(** [aligned_malloc] when the assertion is compiled in and fails. *)
Lemma aligned_malloc_abort a s w :
  pow2_check pf a = false ->
  aligned_malloc pf false a s w = (Aborted, w).
Proof.
  intros Hc. unfold aligned_malloc, bind, assert_. rewrite Hc.
  reflexivity.
Qed.

(** The distance from the raw pointer to the aligned pointer, as the
    code computes it: the header width plus the padding. *)
Lemma distance_pad k p :
  16 <= W -> 0 <= k < W -> 0 <= p < 2 ^ W ->
  let q := align_up pf (wrap W (p + PTR_OFFSET_SZ)) (2 ^ k) in
  wrap W (q - p)
  = PTR_OFFSET_SZ + wrap W (q - wrap W (p + PTR_OFFSET_SZ)).
Proof.
  intros HW Hk Hp q.
  pose proof (align_up_pad_bound pf k (wrap W (p + PTR_OFFSET_SZ)) Hk
                (wrap_range W _ ltac:(lia))) as Hb.
  fold q in Hb. revert Hb.
  rewrite wrap_wrap_sub. intros Hb.
  pose proof (pow2_le_half pf k Hk) as Hh. fold W in Hh.
  assert (2 <= 2 ^ k \/ k = 0) as Hk2.
  { destruct (Z.eq_dec k 0) as [->|]; [right; reflexivity|left].
    change 2 with (2 ^ 1) at 1. apply Z.pow_le_mono_r; lia. }
  assert (H16 : 2 ^ 16 <= 2 ^ W) by (apply Z.pow_le_mono_r; lia).
  change (2 ^ 16) with 65536 in H16.
  assert (Hk0 : k = 0 -> 2 ^ k = 1) by (intros ->; reflexivity).
  unfold PTR_OFFSET_SZ in *. rewrite wrap_wrap_sub.
  replace (q - p) with (2 + (q - (p + 2))) by lia.
  unfold wrap at 1. rewrite <- Zplus_mod_idemp_r.
  fold (wrap W (q - (p + 2))).
  apply Z.mod_small. lia.
Qed.

End Run.

Section Header.
Variable pf : platform.
Let W := ptr_bits pf.
Hypothesis HW : supported pf.

(** [aligned_free] once the header has been read. *)
Lemma aligned_free_run nd q off w :
  nd || negb (q =? NULL) = true ->
  load16 pf (wrap W (q - PTR_OFFSET_SZ)) w = (Returned off, w) ->
  aligned_free pf nd q w
  = (Returned tt,
     World (mem w) (answers w) (trace w ++ [EvFree (wrap W (q - off))])).
Proof.
  intros Hq Hl. unfold aligned_free, bind, assert_. fold W.
  rewrite Hq, Hl. reflexivity.
Qed.

(** What a successful [aligned_malloc] leaves behind, for a power-of-two
    alignment: the pointer it returns, the call it made, the header it
    wrote and the distance the header stands for. *)
Lemma aligned_malloc_header nd a s p rest w :
  power_of_two pf a -> 0 < s ->
  answers w = p :: rest -> in_range pf p -> p <> NULL ->
  exists q w1,
    aligned_malloc pf nd a s w = (Returned q, w1)
    /\ q = align_up pf (wrap W (p + PTR_OFFSET_SZ)) a
    /\ answers w1 = rest
    /\ trace w1 = trace w ++ [EvMalloc (wrap W (s + hdr_size pf a)) p]
    /\ load16 pf (wrap W (q - PTR_OFFSET_SZ)) w1
       = (Returned (wrap offset_bits (wrap W (q - p))), w1)
    /\ PTR_OFFSET_SZ <= wrap W (q - p) <= headerReserve a
    /\ q mod a = 0
    /\ in_range pf q.
Proof.
  intros Hpow Hs Hans Hp Hnn.
  pose proof (pow2_check_pow2 pf a Hpow) as Hc.
  destruct Hpow as (k & Hk & ->). fold W in Hk.
  pose proof (pow2_lt pf k Hk) as Hpk. fold W in Hpk.
  unfold supported in HW. fold W in HW. unfold in_range in Hp. fold W in Hp.
  eexists. eexists. split.
  { apply aligned_malloc_run with (p := p) (rest := rest);
      [rewrite Hc; apply orb_true_r | lia | lia | exact Hans | exact Hnn]. }
  fold W. set (q := align_up pf (wrap W (p + PTR_OFFSET_SZ)) (2 ^ k)).
  assert (Hq : 0 <= q < 2 ^ W) by (apply align_up_range; exact Hk).
  assert (Hd : PTR_OFFSET_SZ <= wrap W (q - p) <= headerReserve (2 ^ k)).
  { pose proof (distance_pad pf k p HW Hk Hp) as Hdist.
    pose proof (align_up_pad_bound pf k (wrap W (p + PTR_OFFSET_SZ)) Hk
                  (wrap_range W _ ltac:(lia))) as Hb.
    cbv zeta in Hdist. fold W in Hdist, Hb. fold q in Hdist, Hb.
    rewrite Hdist. unfold headerReserve. lia. }
  split; [reflexivity|].
  split; [unfold store16; destruct (byte_addrs pf _); reflexivity|].
  split; [unfold store16; destruct (byte_addrs pf _); reflexivity|].
  split.
  { apply load16_store16.
    - fold W. lia.
    - apply wrap_range. lia.
    - apply wrap_range. unfold offset_bits. lia. }
  split; [exact Hd|].
  split; [apply align_up_mod; exact Hk | exact Hq].
Qed.

End Header.

Lemma wrap_add_sub bits p q :
  0 <= q < 2 ^ bits -> wrap bits (p + wrap bits (q - p)) = q.
Proof.
  intros Hq. unfold wrap. rewrite Zplus_mod_idemp_r.
  replace (p + (q - p)) with q by lia. apply Z.mod_small. exact Hq.
Qed.

Lemma wrap_sub_sub bits p q :
  0 <= p < 2 ^ bits -> wrap bits (q - wrap bits (q - p)) = p.
Proof.
  intros Hp. unfold wrap. rewrite Zminus_mod_idemp_r.
  replace (q - (q - p)) with p by lia. apply Z.mod_small. exact Hp.
Qed.

(** Inside a valid block the address arithmetic does not wrap: the aligned
    pointer is the raw pointer plus the distance. *)
Lemma aligned_in_block pf p q n d :
  valid_block pf p n -> 0 <= q < 2 ^ ptr_bits pf ->
  wrap (ptr_bits pf) (q - p) = d -> 0 <= d < n ->
  q = p + d.
Proof.
  intros [Hp Hn] Hq Hd Hdn.
  rewrite <- (wrap_add_sub (ptr_bits pf) p q Hq), Hd.
  apply wrap_small. lia.
Qed.

(** ** The reference usage

    The three allocations and releases of [main], against an allocator
    that answers unaligned blocks: every pointer is aligned and every
    raw block goes back to [free]. *)

Example reference_usage_runs :
  let '(r, w) := reference_usage lp64 (world0 [4099; 8221; 12345]) in
  r = Returned (4104, 8224, 12348)
  /\ trace w = [EvMalloc 109 4099; EvMalloc 1068 8221; EvMalloc 13 12345;
                EvFree 4099; EvFree 8221; EvFree 12345].
Proof. vm_compute. split; reflexivity. Qed.

(** ** The claims *)

(** For every power-of-two alignment the aligned pointer lies in the header
    reserve of a valid block, whatever the header can hold. *)
Lemma aligned_pointer_in_reserve pf nd a s p rest w :
  supported pf -> power_of_two pf a -> 0 < s ->
  answers w = p :: rest -> valid_block pf p (s + headerReserve a) ->
  exists q w1,
    aligned_malloc pf nd a s w = (Returned q, w1)
    /\ load16 pf (wrap (ptr_bits pf) (q - PTR_OFFSET_SZ)) w1
       = (Returned (wrap offset_bits (q - p)), w1)
    /\ p + PTR_OFFSET_SZ <= q <= p + headerReserve a
    /\ q mod a = 0.
Proof.
  intros HW Hpow Hs Hans Hvb.
  assert (Hp : in_range pf p).
  { destruct Hvb as [Hp0 Hpn]. unfold in_range, headerReserve in *.
    destruct Hpow as (k & Hk & ->). pose proof (pow2_lt pf k Hk).
    unfold PTR_OFFSET_SZ in *. lia. }
  assert (Hnn : p <> NULL) by (destruct Hvb; unfold NULL; lia).
  destruct (aligned_malloc_header pf HW nd a s p rest w Hpow Hs Hans Hp Hnn)
    as (q & w1 & Hrun & _ & _ & _ & Hld & Hd & Hmod & Hq).
  assert (Hqp : q = p + wrap (ptr_bits pf) (q - p)).
  { apply (aligned_in_block pf p q (s + headerReserve a)); auto.
    unfold PTR_OFFSET_SZ in *. lia. }
  exists q, w1. split; [exact Hrun|].
  replace (wrap (ptr_bits pf) (q - p)) with (q - p) in Hld, Hd by lia.
  split; [exact Hld|]. split; [lia | exact Hmod].
Qed.

(** The request never exceeds the size plus the header reserve, and
    where it reaches it the two are equal: neither the conversion to
    [uint32_t] nor the sum in [size_t] lost anything. *)
Lemma requested_le pf a s :
  power_of_two pf a -> 0 <= s -> requested pf a s <= s + headerReserve a.
Proof.
  intros (k & Hk & ->) Hs. pose proof (pow2_lt pf k Hk) as Hp.
  unfold requested, hdr_size, headerReserve, PTR_OFFSET_SZ.
  assert (Hle : forall bits x, 0 <= bits -> 0 <= x ->
                               0 <= wrap bits x <= x).
  { intros bits x Hb Hx. unfold wrap. split.
    - apply Z.mod_pos_bound. lia.
    - apply Z.mod_le; lia. }
  pose proof (Hle (ptr_bits pf) (2 ^ k - 1) ltac:(lia) ltac:(lia)) as H1.
  pose proof (Hle (ptr_bits pf) (2 + wrap (ptr_bits pf) (2 ^ k - 1))
                ltac:(lia) ltac:(lia)) as H2.
  pose proof (Hle 32 (wrap (ptr_bits pf)
                        (2 + wrap (ptr_bits pf) (2 ^ k - 1)))
                ltac:(lia) ltac:(lia)) as H3.
  pose proof (Hle (ptr_bits pf)
                (s + wrap 32 (wrap (ptr_bits pf)
                                (2 + wrap (ptr_bits pf) (2 ^ k - 1))))
                ltac:(lia) ltac:(lia)) as H4.
  lia.
Qed.

(** A valid block of the requested size, with room for the size and the
    header reserve, is a valid block of [s + headerReserve a] bytes. *)
Lemma requested_block pf a s p :
  power_of_two pf a -> 0 < s ->
  valid_block pf p (requested pf a s) ->
  s + headerReserve a <= requested pf a s ->
  requested pf a s = s + headerReserve a
  /\ valid_block pf p (s + headerReserve a).
Proof.
  intros Hpow Hs Hvb Hroom.
  pose proof (requested_le pf a s Hpow ltac:(lia)) as Hle.
  assert (E : requested pf a s = s + headerReserve a) by lia.
  split; [exact E|]. rewrite <- E. exact Hvb.
Qed.

Lemma requested_block_range pf a s p :
  power_of_two pf a -> 0 < s ->
  valid_block pf p (requested pf a s) ->
  s + headerReserve a <= requested pf a s ->
  in_range pf p /\ p <> NULL.
Proof.
  intros Hpow Hs [Hp0 Hpn] Hroom.
  destruct Hpow as (k & Hk & ->). pose proof (pow2_lt pf k Hk).
  unfold in_range, NULL, headerReserve, PTR_OFFSET_SZ in *. lia.
Qed.



(** C2, as the specification states it, fails: with alignment [2 ^ 16] and
    a raw block at [65536] the distance to the aligned pointer is 65536,
    the header holds 0, and [aligned_free] hands the aligned pointer
    itself to [free]. *)
Lemma round_trip_fails_at_65536 :
  power_of_two lp64 65536 /\ 0 < 1
  /\ valid_block lp64 65536 (1 + headerReserve 65536)
  /\ ~ round_trip lp64 false 65536 1 65536 (world0 [65536]).
Proof.
  split; [exists 16; split; [zclosed | reflexivity]|].
  split; [lia|].
  split; [unfold valid_block; zclosed|].
  intros (q & w1 & w2 & Hm & Hf & Ht).
  vm_compute in Hm. injection Hm as <- <-.
  vm_compute in Hf. injection Hf as <-.
  vm_compute in Ht. discriminate Ht.
Qed.

(** C2 (amended): for every power-of-two alignment [a] with
    [headerWidth + (a - 1) <= 65535] and every size [s > 0], if [malloc]
    answered the block [p] of [s + headerReserve a] bytes, then
    [aligned_malloc] returns a pointer [q], and [aligned_free q] reads the
    stored offset, subtracts it from [q] and passes exactly [p] to
    [free]. *)
Theorem round_trip_holds pf nd a s p rest w :
  supported pf -> power_of_two pf a -> headerReserve a <= 65535 -> 0 < s ->
  answers w = p :: rest -> valid_block pf p (s + headerReserve a) ->
  round_trip pf nd a s p w.
Proof.
  intros HW Hpow Hhr Hs Hans Hvb.
  assert (Hp : in_range pf p).
  { destruct Hvb as [Hp0 Hpn]. unfold in_range, headerReserve in *.
    destruct Hpow as (k & Hk & ->). pose proof (pow2_lt pf k Hk).
    unfold PTR_OFFSET_SZ in *. lia. }
  assert (Hnn : p <> NULL) by (destruct Hvb; unfold NULL; lia).
  destruct (aligned_malloc_header pf HW nd a s p rest w Hpow Hs Hans Hp Hnn)
    as (q & w1 & Hrun & _ & _ & Htr & Hld & Hd & _ & Hq).
  assert (Hoff : wrap offset_bits (wrap (ptr_bits pf) (q - p))
                 = wrap (ptr_bits pf) (q - p)).
  { apply wrap_small. unfold offset_bits. simpl. unfold PTR_OFFSET_SZ in *.
    lia. }
  rewrite Hoff in Hld.
  assert (Hqp : q = p + wrap (ptr_bits pf) (q - p)).
  { apply (aligned_in_block pf p q (s + headerReserve a)); auto.
    unfold PTR_OFFSET_SZ in *. lia. }
  assert (Hq0 : nd || negb (q =? NULL) = true).
  { destruct (Z.eqb_spec q NULL) as [E|_].
    - exfalso. destruct Hvb. unfold NULL, PTR_OFFSET_SZ in *. lia.
    - apply orb_true_r. }
  exists q, w1. eexists. split; [exact Hrun|]. split.
  - apply aligned_free_run; [exact Hq0 | exact Hld].
  - simpl. rewrite Htr, <- app_assoc. simpl.
    rewrite wrap_sub_sub by exact Hp. reflexivity.
Qed.

Lemma round_trip_holds_witness :
  round_trip ilp32_be false 8 100 4099 (world0 [4099]).
Proof.
  apply (round_trip_holds ilp32_be false 8 100 4099 [] (world0 [4099])).
  - unfold supported. zclosed.
  - exists 3. split; [zclosed | reflexivity].
  - unfold headerReserve, PTR_OFFSET_SZ. lia.
  - lia.
  - reflexivity.
  - unfold valid_block. zclosed.
Defined.

(** C3, as the specification states it, fails: the only validation of the
    alignment is the assertion, and a build with NDEBUG does not evaluate
    it.  There [aligned_malloc(6, 10)], with [malloc] answering 8, returns
    10, which is not a multiple of 6. *)
Lemma misaligned_under_ndebug :
  ~ power_of_two lp64 6
  /\ returns_misaligned lp64 true 6 10 (world0 [8])
  /\ ~ returns_failure lp64 true 6 10 (world0 [8]).
Proof.
  split; [|split].
  - intros (k & Hk & E).
    assert (Hc : pow2_check lp64 6 = true).
    { apply pow2_check_pow2. exists k. split; assumption. }
    vm_compute in Hc. discriminate Hc.
  - exists 10. eexists. split; [vm_compute; reflexivity|].
    split; [unfold NULL; lia | vm_compute; discriminate].
  - intros (w' & Hr & _). vm_compute in Hr. discriminate Hr.
Qed.

(** C3 (amended): for every nonzero alignment that is not a power of two
    and every size, in a build where the assertion is compiled in,
    [aligned_malloc] aborts at the assertion: nothing is returned (so no
    misaligned pointer), [malloc] is not called and memory is not
    written. *)
Theorem not_power_of_two_aborts pf a s w :
  in_range pf a -> a <> 0 -> ~ power_of_two pf a ->
  aligned_malloc pf false a s w = (Aborted, w).
Proof.
  intros Ha Hnz Hnp. apply aligned_malloc_abort.
  destruct (pow2_check pf a) eqn:Hc; [exfalso|reflexivity].
  apply Hnp. apply pow2_check_sound; [unfold in_range in Ha; lia | exact Hc].
Qed.

Lemma six_is_not_power_of_two pf : ~ power_of_two pf 6.
Proof.
  intros (k & Hk & E).
  assert (Hlt : k < 3).
  { apply (Z.pow_lt_mono_r_iff 2); [lia | lia |]. rewrite <- E.
    vm_compute. reflexivity. }
  assert (Hk' : k = 0 \/ k = 1 \/ k = 2) by lia.
  destruct Hk' as [-> | [-> | ->]]; vm_compute in E; discriminate E.
Qed.

Lemma not_power_of_two_aborts_witness :
  aligned_malloc lp64 false 6 10 (world0 [8]) = (Aborted, world0 [8]).
Proof.
  apply (not_power_of_two_aborts lp64 6 10 (world0 [8])).
  - unfold in_range. zclosed.
  - lia.
  - apply six_is_not_power_of_two.
Defined.

(** C4, as the specification states it, fails: in a build where the
    assertion is compiled in, [aligned_malloc(6, 0)] does not return a
    failure, it aborts. *)
Lemma zero_size_aborts_at_6 :
  aligned_malloc lp64 false 6 0 (world0 [8]) = (Aborted, world0 [8])
  /\ ~ returns_failure lp64 false 6 0 (world0 [8]).
Proof.
  split; [vm_compute; reflexivity|].
  intros (w' & Hr & _). vm_compute in Hr. discriminate Hr.
Qed.

(** C4 (amended): for every size [s], [aligned_malloc(0, s)] returns NULL;
    for every alignment [a], [aligned_malloc(a, 0)] returns NULL when [a]
    passes the assertion or the assertion is compiled out, and aborts at
    the assertion otherwise.  In every one of these cases no pointer is
    returned, [malloc] is not called and the world is left as it was.
    NULL is the only failure value of the function. *)
Theorem zero_argument_fails pf nd a s w :
  a = 0 \/ s = 0 ->
  (nd || pow2_check pf a = true
   -> aligned_malloc pf nd a s w = (Returned NULL, w))
  /\ (nd || pow2_check pf a = false
      -> aligned_malloc pf nd a s w = (Aborted, w))
  /\ (a = 0 -> aligned_malloc pf nd a s w = (Returned NULL, w))
  /\ snd (aligned_malloc pf nd a s w) = w
  /\ forall q, fst (aligned_malloc pf nd a s w) = Returned q -> q = NULL.
Proof.
  intros Hz.
  assert (Hret : nd || pow2_check pf a = true
                 -> aligned_malloc pf nd a s w = (Returned NULL, w))
    by (intros Hc; apply aligned_malloc_guard; assumption).
  assert (Hab : nd || pow2_check pf a = false
                -> aligned_malloc pf nd a s w = (Aborted, w)).
  { intros Hc. apply orb_false_elim in Hc. destruct Hc as [-> Hc].
    apply aligned_malloc_abort. exact Hc. }
  split; [exact Hret|]. split; [exact Hab|]. split; [|split].
  - intros ->. apply Hret. rewrite pow2_check_zero. apply orb_true_r.
  - destruct (nd || pow2_check pf a) eqn:Hc.
    + rewrite Hret; reflexivity.
    + rewrite Hab; reflexivity.
  - intros q. destruct (nd || pow2_check pf a) eqn:Hc.
    + rewrite Hret by reflexivity. simpl. congruence.
    + rewrite Hab by reflexivity. simpl. discriminate.
Qed.

Lemma zero_argument_fails_witness :
  aligned_malloc lp64 false 0 100 (world0 [4096])
  = (Returned NULL, world0 [4096]).
Proof.
  apply (zero_argument_fails lp64 false 0 100 (world0 [4096])
           (or_introl eq_refl)).
  reflexivity.
Defined.

(** C5: for every valid alignment and size, if the underlying allocator
    answers NULL for the padded request, [aligned_malloc] returns NULL
    after that single call of [malloc] (no retry) and writes no header:
    memory is unchanged. *)
Theorem malloc_failure_propagates pf nd a s rest w :
  power_of_two pf a -> 0 < s -> answers w = NULL :: rest ->
  exists w',
    aligned_malloc pf nd a s w = (Returned NULL, w')
    /\ mem w' = mem w
    /\ trace w'
       = trace w ++ [EvMalloc (wrap (ptr_bits pf) (s + hdr_size pf a)) NULL].
Proof.
  intros Hpow Hs Hans.
  pose proof (pow2_check_pow2 pf a Hpow) as Hc.
  destruct Hpow as (k & Hk & ->).
  pose proof (pow2_lt pf k Hk) as Hpk.
  eexists. split.
  - apply aligned_malloc_null;
      [rewrite Hc; apply orb_true_r | lia | lia | rewrite Hans; reflexivity].
  - split; reflexivity.
Qed.

Lemma malloc_failure_propagates_witness :
  exists w',
    aligned_malloc lp64 false 8 100 (world0 [NULL; 4096])
    = (Returned NULL, w')
    /\ mem w' = mem (world0 [NULL; 4096])
    /\ trace w'
       = trace (world0 [NULL; 4096])
         ++ [EvMalloc (wrap (ptr_bits lp64) (100 + hdr_size lp64 8)) NULL].
Proof.
  apply (malloc_failure_propagates lp64 false 8 100 [4096]
           (world0 [NULL; 4096])).
  - exists 3. split; [zclosed | reflexivity].
  - lia.
  - reflexivity.
Defined.

(** C6, as the specification states it, fails: with alignment [2 ^ 16] and
    a raw block at [65536] the header holds 0, which is less than the
    header width. *)
Lemma header_out_of_bounds_at_65536 :
  power_of_two lp64 65536 /\ 0 < 1
  /\ valid_block lp64 65536 (1 + headerReserve 65536)
  /\ load16 lp64 (wrap 64 (131072 - PTR_OFFSET_SZ))
       (snd (aligned_malloc lp64 false 65536 1 (world0 [65536])))
     = (Returned 0,
        snd (aligned_malloc lp64 false 65536 1 (world0 [65536])))
  /\ ~ header_in_bounds lp64 false 65536 1 65536 (world0 [65536]).
Proof.
  split; [exists 16; split; [zclosed | reflexivity]|].
  split; [lia|].
  split; [unfold valid_block; zclosed|].
  split; [vm_compute; reflexivity|].
  intros (q & w1 & off & Hm & Hl & Hb & _).
  vm_compute in Hm. injection Hm as <- <-.
  vm_compute in Hl. injection Hl as <-.
  unfold PTR_OFFSET_SZ in Hb. lia.
Qed.

(** When the header reserve fits the header, the stored value is the
    distance from the raw pointer to the aligned pointer. *)
Lemma stored_offset_is_distance pf nd a s p rest w :
  supported pf -> power_of_two pf a -> headerReserve a <= 65535 -> 0 < s ->
  answers w = p :: rest -> valid_block pf p (s + headerReserve a) ->
  exists q w1,
    aligned_malloc pf nd a s w = (Returned q, w1)
    /\ load16 pf (wrap (ptr_bits pf) (q - PTR_OFFSET_SZ)) w1
       = (Returned (q - p), w1)
    /\ p + PTR_OFFSET_SZ <= q <= p + headerReserve a.
Proof.
  intros HW Hpow Hhr Hs Hans Hvb.
  destruct (aligned_pointer_in_reserve pf nd a s p rest w HW Hpow Hs Hans Hvb)
    as (q & w1 & Hrun & Hld & Hq & _).
  assert (Hoff : wrap offset_bits (q - p) = q - p).
  { apply wrap_small. unfold offset_bits. change (2 ^ 16) with 65536.
    unfold PTR_OFFSET_SZ in *. lia. }
  rewrite Hoff in Hld.
  exists q, w1. split; [exact Hrun|]. split; [exact Hld | exact Hq].
Qed.

(** C6 (amended): for every power-of-two alignment [a] with
    [headerWidth + (a - 1) <= 65535] and every size [s > 0], when [malloc]
    answered the block [p] of [s + headerReserve a] bytes, the offset
    written into the header is the distance from the raw pointer to the
    aligned pointer and satisfies
    [headerWidth <= offset <= headerWidth + (a - 1)], and the aligned
    pointer lies within [[p + headerWidth, p + headerReserve]]. *)
Theorem header_offset_bounds pf nd a s p rest w :
  supported pf -> power_of_two pf a -> headerReserve a <= 65535 -> 0 < s ->
  answers w = p :: rest -> valid_block pf p (s + headerReserve a) ->
  header_in_bounds pf nd a s p w
  /\ exists q w1,
       aligned_malloc pf nd a s w = (Returned q, w1)
       /\ load16 pf (wrap (ptr_bits pf) (q - PTR_OFFSET_SZ)) w1
          = (Returned (q - p), w1).
Proof.
  intros HW Hpow Hhr Hs Hans Hvb.
  destruct (stored_offset_is_distance pf nd a s p rest w
              HW Hpow Hhr Hs Hans Hvb)
    as (q & w1 & Hrun & Hld & Hq).
  split.
  - exists q, w1, (q - p). split; [exact Hrun|]. split; [exact Hld|].
    split; [lia | exact Hq].
  - exists q, w1. split; [exact Hrun | exact Hld].
Qed.

Lemma header_offset_bounds_witness :
  header_in_bounds lp64 true 32 1035 4099 (world0 [4099]).
Proof.
  apply (header_offset_bounds lp64 true 32 1035 4099 [] (world0 [4099])).
  - unfold supported. zclosed.
  - exists 5. split; [zclosed | reflexivity].
  - unfold headerReserve, PTR_OFFSET_SZ. lia.
  - lia.
  - reflexivity.
  - unfold valid_block. zclosed.
Defined.

(** Where the sums fit [uint32_t] and [size_t], the request is the size
    plus the header reserve. *)
Lemma request_exact pf a s :
  power_of_two pf a -> 0 < s ->
  s + headerReserve a < 2 ^ 32 -> s + headerReserve a < 2 ^ ptr_bits pf ->
  wrap (ptr_bits pf) (s + hdr_size pf a) = s + headerReserve a.
Proof.
  intros (k & Hk & ->) Hs H32 HW. pose proof (pow2_lt pf k Hk) as Hp.
  unfold hdr_size, headerReserve, PTR_OFFSET_SZ in *.
  rewrite (wrap_small (ptr_bits pf) (2 ^ k - 1)) by lia.
  rewrite (wrap_small (ptr_bits pf) (2 + (2 ^ k - 1))) by lia.
  rewrite (wrap_small 32) by lia.
  apply wrap_small. lia.
Qed.

(** C7: the request is meant to be [size + headerReserve], but the sum is
    computed in [size_t] after the reserve went through a [uint32_t]:
    [aligned_malloc(1, SIZE_MAX)] asks [malloc] for one byte, and on a
    64-bit platform [aligned_malloc(2 ^ 32, 1)] asks for two. *)
Theorem request_wraps :
  (power_of_two ilp32 1
   /\ trace (snd (aligned_malloc ilp32 false 1 (2 ^ 32 - 1) (world0 [4096])))
      = [EvMalloc 1 4096]
   /\ (2 ^ 32 - 1) + headerReserve 1 = 2 ^ 32 + 1)
  /\ (power_of_two lp64 1
      /\ trace (snd (aligned_malloc lp64 false 1 (2 ^ 64 - 1)
                       (world0 [4096])))
         = [EvMalloc 1 4096]
      /\ (2 ^ 64 - 1) + headerReserve 1 = 2 ^ 64 + 1)
  /\ (power_of_two lp64 (2 ^ 32)
      /\ trace (snd (aligned_malloc lp64 false (2 ^ 32) 1 (world0 [4096])))
         = [EvMalloc 2 4096]
      /\ 1 + headerReserve (2 ^ 32) = 2 ^ 32 + 2).
Proof.
  split; [|split].
  - split; [exists 0; split; [zclosed | reflexivity]|].
    split; vm_compute; reflexivity.
  - split; [exists 0; split; [zclosed | reflexivity]|].
    split; vm_compute; reflexivity.
  - split; [exists 32; split; [zclosed | reflexivity]|].
    split; vm_compute; reflexivity.
Qed.



(** With alignment [2 ^ 16] and a raw block at [65536], on every platform
    of at least 18 address bits: the distance is 65536, the header holds
    0, and [aligned_free] hands 131072 to [free]. *)
Lemma truncation_at_65536 pf nd s rest w :
  18 <= ptr_bits pf -> 0 < s -> answers w = 65536 :: rest ->
  exists w1 w2,
    aligned_malloc pf nd (2 ^ 16) s w = (Returned 131072, w1)
    /\ load16 pf (wrap (ptr_bits pf) (131072 - PTR_OFFSET_SZ)) w1
       = (Returned 0, w1)
    /\ wrap (ptr_bits pf) (131072 - 65536) = 65536
    /\ aligned_free pf nd 131072 w1 = (Returned tt, w2)
    /\ trace w2 = trace w1 ++ [EvFree 131072].
Proof.
  intros HW Hs Hans.
  assert (H18 : 2 ^ 18 <= 2 ^ ptr_bits pf) by (apply Z.pow_le_mono_r; lia).
  change (2 ^ 18) with 262144 in H18.
  assert (Hsup : supported pf) by (unfold supported; lia).
  assert (Hpow : power_of_two pf (2 ^ 16)) by (exists 16; split; [lia | reflexivity]).
  assert (Hp : in_range pf 65536) by (unfold in_range; lia).
  assert (Hnn : 65536 <> NULL) by (unfold NULL; lia).
  destruct (aligned_malloc_header pf Hsup nd (2 ^ 16) s 65536 rest w
              Hpow Hs Hans Hp Hnn)
    as (q & w1 & Hrun & Hq & _ & _ & Hld & _ & _ & _).
  assert (Eq : q = 131072).
  { rewrite Hq, align_up_pow2 by lia.
    rewrite (wrap_small _ (65536 + PTR_OFFSET_SZ))
      by (unfold PTR_OFFSET_SZ; lia).
    rewrite wrap_small by (unfold PTR_OFFSET_SZ; simpl; lia).
    reflexivity. }
  clear Hq. subst q.
  assert (Ed : wrap (ptr_bits pf) (131072 - 65536) = 65536)
    by (apply wrap_small; lia).
  rewrite Ed in Hld. change (wrap offset_bits 65536) with 0 in Hld.
  exists w1. eexists. split; [exact Hrun|]. split; [exact Hld|].
  split; [exact Ed|]. split.
  - apply aligned_free_run; [apply orb_true_r | exact Hld].
  - simpl. rewrite Z.sub_0_r, wrap_small by lia. reflexivity.
Qed.

(** C9: the header is a 16-bit unsigned integer.  For every power-of-two
    alignment [a] with [headerWidth + (a - 1) <= 65535] the narrowing cast
    is lossless: the stored value is the distance [q - p], and
    [aligned_free] recovers exactly [p].  For alignment [2 ^ 16] there is
    a raw address for which the cast truncates: the stored value differs
    from the distance and the address handed to [free] differs from the
    raw address. *)
Theorem offset_cast pf :
  supported pf ->
  (forall nd a s p rest w,
      power_of_two pf a -> headerReserve a <= 65535 -> 0 < s ->
      answers w = p :: rest -> valid_block pf p (s + headerReserve a) ->
      exists q w1 w2,
        aligned_malloc pf nd a s w = (Returned q, w1)
        /\ load16 pf (wrap (ptr_bits pf) (q - PTR_OFFSET_SZ)) w1
           = (Returned (q - p), w1)
        /\ 0 <= q - p < 2 ^ offset_bits
        /\ aligned_free pf nd q w1 = (Returned tt, w2)
        /\ trace w2 = trace w1 ++ [EvFree p])
  /\ (18 <= ptr_bits pf ->
      exists p, forall nd rest w,
        answers w = p :: rest ->
        valid_block pf p (1 + headerReserve (2 ^ 16))
        /\ exists q w1 w2 off r,
             aligned_malloc pf nd (2 ^ 16) 1 w = (Returned q, w1)
             /\ load16 pf (wrap (ptr_bits pf) (q - PTR_OFFSET_SZ)) w1
                = (Returned off, w1)
             /\ off <> wrap (ptr_bits pf) (q - p)
             /\ aligned_free pf nd q w1 = (Returned tt, w2)
             /\ trace w2 = trace w1 ++ [EvFree r]
             /\ r <> p).
Proof.
  intros HW. split.
  - intros nd a s p rest w Hpow Hhr Hs Hans Hvb.
    destruct (stored_offset_is_distance pf nd a s p rest w
                HW Hpow Hhr Hs Hans Hvb)
      as (q & w1 & Hrun & Hld & Hq).
    assert (Hp : in_range pf p).
    { destruct Hvb as [Hp0 Hpn]. unfold in_range, headerReserve in *.
      destruct Hpow as (k & Hk & ->). pose proof (pow2_lt pf k Hk).
      unfold PTR_OFFSET_SZ in *. lia. }
    exists q, w1. eexists. split; [exact Hrun|]. split; [exact Hld|].
    split.
    { unfold offset_bits. change (2 ^ 16) with 65536.
      unfold PTR_OFFSET_SZ in *. lia. }
    split.
    + apply aligned_free_run; [|exact Hld].
      destruct (Z.eqb_spec q NULL) as [E|_]; [|apply orb_true_r].
      exfalso. destruct Hvb. unfold NULL, PTR_OFFSET_SZ in *. lia.
    + simpl. replace (q - (q - p)) with p by lia.
      rewrite wrap_small by exact Hp. reflexivity.
  - intros H18. exists 65536. intros nd rest w Hans.
    assert (H18' : 2 ^ 18 <= 2 ^ ptr_bits pf)
      by (apply Z.pow_le_mono_r; lia).
    change (2 ^ 18) with 262144 in H18'.
    split.
    { unfold valid_block, headerReserve, PTR_OFFSET_SZ.
      change (2 ^ 16) with 65536. lia. }
    destruct (truncation_at_65536 pf nd 1 rest w H18 ltac:(lia) Hans)
      as (w1 & w2 & Hrun & Hld & Ed & Hfree & Htr).
    exists 131072, w1, w2, 0, 131072.
    split; [exact Hrun|]. split; [exact Hld|].
    split; [rewrite Ed; lia|]. split; [exact Hfree|].
    split; [exact Htr | lia].
Qed.

Lemma offset_cast_witness :
  (exists q w1 w2,
      aligned_malloc lp64 false 8 100 (world0 [4099]) = (Returned q, w1)
      /\ load16 lp64 (wrap (ptr_bits lp64) (q - PTR_OFFSET_SZ)) w1
         = (Returned (q - 4099), w1)
      /\ 0 <= q - 4099 < 2 ^ offset_bits
      /\ aligned_free lp64 false q w1 = (Returned tt, w2)
      /\ trace w2 = trace w1 ++ [EvFree 4099])
  /\ exists p, forall nd rest w,
       answers w = p :: rest ->
       valid_block lp64 p (1 + headerReserve (2 ^ 16))
       /\ exists q w1 w2 off r,
            aligned_malloc lp64 nd (2 ^ 16) 1 w = (Returned q, w1)
            /\ load16 lp64 (wrap (ptr_bits lp64) (q - PTR_OFFSET_SZ)) w1
               = (Returned off, w1)
            /\ off <> wrap (ptr_bits lp64) (q - p)
            /\ aligned_free lp64 nd q w1 = (Returned tt, w2)
            /\ trace w2 = trace w1 ++ [EvFree r]
            /\ r <> p.
Proof.
  assert (Hs : supported lp64) by (unfold supported; zclosed).
  split.
  - apply (proj1 (offset_cast lp64 Hs) false 8 100 4099 [] (world0 [4099])).
    + exists 3. split; [zclosed | reflexivity].
    + unfold headerReserve, PTR_OFFSET_SZ. lia.
    + lia.
    + reflexivity.
    + unfold valid_block. zclosed.
  - apply (proj2 (offset_cast lp64 Hs)). zclosed.
Defined.

(** C10: the assertion [(align & (align - 1)) == 0] holds for
    [align == 0], so the assertion lets a zero alignment through in every
    build; it is the guard [if(align && size)] that stops the call: with
    [align == 0] the function returns NULL, and whenever [align == 0] or
    [size == 0] nothing behind the guard runs, that is, [malloc] is not
    called and no header is written. *)
Theorem zero_alignment_passes_assertion pf :
  pow2_check pf 0 = true
  /\ (forall nd w, assert_ nd (pow2_check pf 0) w = (Returned tt, w))
  /\ (forall nd s w, aligned_malloc pf nd 0 s w = (Returned NULL, w))
  /\ (forall nd a s w,
         a = 0 \/ s = 0 -> snd (aligned_malloc pf nd a s w) = w).
Proof.
  split; [apply pow2_check_zero|].
  split.
  { intros nd w. unfold assert_. rewrite pow2_check_zero, orb_true_r.
    reflexivity. }
  split.
  { intros nd s w. apply aligned_malloc_guard; [|left; reflexivity].
    rewrite pow2_check_zero. apply orb_true_r. }
  intros nd a s w Hz.
  destruct (nd || pow2_check pf a) eqn:Hc.
  - rewrite aligned_malloc_guard by assumption. reflexivity.
  - apply orb_false_elim in Hc. destruct Hc as [-> Hc].
    rewrite aligned_malloc_abort by exact Hc. reflexivity.
Qed.

Lemma zero_alignment_passes_assertion_witness :
  snd (aligned_malloc ilp32 false 16 0 (world0 [4096])) = world0 [4096].
Proof.
  apply (proj2 (proj2 (proj2 (zero_alignment_passes_assertion ilp32)))
           false 16 0 (world0 [4096])).
  right. reflexivity.
Defined.

(** ** Further properties of the code *)

(** X1: the condition of the assertion holds exactly for zero and for the
    powers of two. *)
Theorem pow2_check_iff pf a :
  in_range pf a ->
  (pow2_check pf a = true <-> a = 0 \/ power_of_two pf a).
Proof.
  intros Ha. split.
  - intros Hc. destruct (Z.eq_dec a 0) as [E|NE]; [left; exact E|right].
    apply pow2_check_sound; [unfold in_range in Ha; lia | exact Hc].
  - intros [-> | Hp]; [apply pow2_check_zero | apply pow2_check_pow2, Hp].
Qed.

Lemma pow2_check_iff_witness :
  pow2_check ilp32 4096 = true <-> 4096 = 0 \/ power_of_two ilp32 4096.
Proof.
  apply (pow2_check_iff ilp32 4096). unfold in_range. zclosed.
Defined.

(** X2: where the addition does not wrap, [align_up] on a power of two
    returns the least multiple of the alignment that is not below its
    argument, less than one alignment above it. *)
Theorem align_up_least pf a x :
  power_of_two pf a -> 0 <= x -> x + (a - 1) < 2 ^ ptr_bits pf ->
  x <= align_up pf x a < x + a
  /\ align_up pf x a mod a = 0
  /\ forall m, m mod a = 0 -> x <= m -> align_up pf x a <= m.
Proof.
  intros (k & Hk & ->) Hx Hfit. pose proof (pow2_lt pf k Hk) as Hp.
  rewrite align_up_pow2 by exact Hk.
  rewrite wrap_small by lia.
  set (a := 2 ^ k) in *. set (y := x + (a - 1)).
  pose proof (Z.div_mod y a ltac:(lia)) as Hd.
  pose proof (Z.mod_pos_bound y a ltac:(lia)) as Hm.
  split; [unfold y in *; lia|]. split.
  - rewrite Z.mul_comm. apply Z_mod_mult.
  - intros m Hmm Hxm.
    apply Z.mod_divide in Hmm; [|lia]. destruct Hmm as [c ->].
    assert (y / a < c + 1); [|nia].
    apply Z.div_lt_upper_bound; [lia|]. unfold y. nia.
Qed.

Lemma align_up_least_witness :
  4101 <= align_up ilp32 4101 8 < 4101 + 8
  /\ align_up ilp32 4101 8 mod 8 = 0
  /\ forall m, m mod 8 = 0 -> 4101 <= m -> align_up ilp32 4101 8 <= m.
Proof.
  apply (align_up_least ilp32 8 4101).
  - exists 3. split; [zclosed | reflexivity].
  - lia.
  - zclosed.
Defined.

(** X3: rounding up twice is rounding up once, also when the addition
    wraps. *)
Theorem align_up_idempotent pf a x :
  power_of_two pf a ->
  align_up pf (align_up pf x a) a = align_up pf x a.
Proof.
  intros (k & Hk & ->).
  apply align_up_aligned; [exact Hk | | ].
  - apply align_up_range. exact Hk.
  - apply align_up_mod. exact Hk.
Qed.

Lemma align_up_idempotent_witness :
  align_up lp64 (align_up lp64 4101 32) 32 = align_up lp64 4101 32.
Proof.
  apply (align_up_idempotent lp64 32 4101).
  exists 5. split; [zclosed | reflexivity].
Defined.

(** X4: above the last multiple of the alignment in the address space the
    addition wraps and [align_up] returns 0. *)
Theorem align_up_wraps_to_zero pf a x :
  power_of_two pf a ->
  2 ^ ptr_bits pf - a < x < 2 ^ ptr_bits pf ->
  align_up pf x a = 0.
Proof.
  intros (k & Hk & ->) Hx. pose proof (pow2_lt pf k Hk) as Hp.
  rewrite align_up_pow2 by exact Hk.
  assert (E : wrap (ptr_bits pf) (x + (2 ^ k - 1))
              = x + (2 ^ k - 1) - 2 ^ ptr_bits pf).
  { unfold wrap. symmetry.
    apply Z.mod_unique_pos with (q := 1); lia. }
  rewrite E. rewrite Z.div_small by lia. lia.
Qed.

Lemma align_up_wraps_to_zero_witness :
  align_up ilp32 (2 ^ 32 - 5) 16 = 0.
Proof.
  apply (align_up_wraps_to_zero ilp32 16 (2 ^ 32 - 5)).
  - exists 4. split; [zclosed | reflexivity].
  - zclosed.
Defined.

(** A header store changes the two bytes of the header and nothing else. *)
Lemma store16_frame pf h v w c :
  c <> h -> c <> wrap (ptr_bits pf) (h + 1) ->
  mem (snd (store16 pf h v w)) !! c = mem w !! c.
Proof.
  intros Hc Hc1. unfold store16, byte_addrs.
  destruct (big_endian pf); simpl;
    rewrite !lookup_insert_ne by congruence; reflexivity.
Qed.

(** What a header load returns depends on the two bytes of the header
    only, and a load leaves the world as it is. *)
Lemma load16_frame pf h w w' :
  mem w' !! h = mem w !! h ->
  mem w' !! wrap (ptr_bits pf) (h + 1) = mem w !! wrap (ptr_bits pf) (h + 1) ->
  fst (load16 pf h w') = fst (load16 pf h w).
Proof.
  intros H0 H1. unfold load16, byte_addrs.
  destruct (big_endian pf); simpl; rewrite H0, H1;
    repeat (destruct (mem w !! _)); reflexivity.
Qed.

Lemma load16_world pf h w : snd (load16 pf h w) = w.
Proof.
  unfold load16. destruct (byte_addrs pf h) as [lo hi].
  destruct (mem w !! lo); [destruct (mem w !! hi)|]; reflexivity.
Qed.

Lemma load16_pair pf h w v :
  fst (load16 pf h w) = Returned v -> load16 pf h w = (Returned v, w).
Proof.
  intros Hf. rewrite (surjective_pairing (load16 pf h w)).
  rewrite Hf, load16_world. reflexivity.
Qed.

(** The bytes a successful [aligned_malloc] leaves untouched. *)
Lemma header_write_only pf nd a s p rest w :
  supported pf -> power_of_two pf a -> 0 < s ->
  answers w = p :: rest -> valid_block pf p (s + headerReserve a) ->
  exists q w1,
    aligned_malloc pf nd a s w = (Returned q, w1)
    /\ forall c, c <> q - 2 -> c <> q - 1 -> mem w1 !! c = mem w !! c.
Proof.
  intros HW Hpow Hs Hans Hvb.
  destruct (aligned_pointer_in_reserve pf nd a s p rest w HW Hpow Hs Hans Hvb)
    as (q & w1 & Hrun & _ & Hq & _).
  exists q, w1. split; [exact Hrun|].
  intros c Hc2 Hc1.
  assert (Hnn : p <> NULL) by (destruct Hvb; unfold NULL; lia).
  pose proof (pow2_check_pow2 pf a Hpow) as Hchk.
  assert (Ha : a <> 0).
  { destruct Hpow as (k & Hk & ->). pose proof (pow2_lt pf k Hk). lia. }
  pose proof (aligned_malloc_run pf nd a s p rest w
                ltac:(rewrite Hchk; apply orb_true_r) Ha ltac:(lia)
                Hans Hnn) as Hrun'.
  cbv zeta in Hrun'. rewrite Hrun in Hrun'.
  injection Hrun' as Eq Ew. rewrite <- Eq in Ew. rewrite Ew.
  destruct Hvb as [Hp0 Hpn]. unfold PTR_OFFSET_SZ in *.
  assert (Hh : wrap (ptr_bits pf) (q - 2) = q - 2) by (apply wrap_small; lia).
  rewrite Hh. rewrite store16_frame; [reflexivity | exact Hc2 |].
  replace (q - 2 + 1) with (q - 1) by lia.
  rewrite wrap_small by lia. exact Hc1.
Qed.

(** X5: a successful [aligned_malloc] writes the two bytes just below the
    pointer it returns and no other byte; these two bytes and the [s]
    bytes handed to the caller lie inside the block that [malloc]
    answered, the header below the caller's bytes. *)
Theorem aligned_malloc_frame pf nd a s p rest w :
  supported pf -> power_of_two pf a -> 0 < s ->
  answers w = p :: rest -> valid_block pf p (s + headerReserve a) ->
  exists q w1,
    aligned_malloc pf nd a s w = (Returned q, w1)
    /\ p <= q - PTR_OFFSET_SZ
    /\ q + s <= p + (s + headerReserve a)
    /\ forall c, c <> q - 2 -> c <> q - 1 -> mem w1 !! c = mem w !! c.
Proof.
  intros HW Hpow Hs Hans Hvb.
  destruct (aligned_pointer_in_reserve pf nd a s p rest w HW Hpow Hs Hans Hvb)
    as (q & w1 & Hrun & _ & Hq & _).
  destruct (header_write_only pf nd a s p rest w HW Hpow Hs Hans Hvb)
    as (q' & w1' & Hrun' & Hfr).
  rewrite Hrun in Hrun'. injection Hrun' as <- <-.
  exists q, w1. split; [exact Hrun|].
  split; [lia|]. split; [lia | exact Hfr].
Qed.

Lemma aligned_malloc_frame_witness :
  exists q w1,
    aligned_malloc ilp32_be false 32 1035 (world0 [8221]) = (Returned q, w1)
    /\ 8221 <= q - PTR_OFFSET_SZ
    /\ q + 1035 <= 8221 + (1035 + headerReserve 32)
    /\ forall c, c <> q - 2 -> c <> q - 1
                 -> mem w1 !! c = mem (world0 [8221]) !! c.
Proof.
  apply (aligned_malloc_frame ilp32_be false 32 1035 8221 [] (world0 [8221])).
  - unfold supported. zclosed.
  - exists 5. split; [zclosed | reflexivity].
  - lia.
  - reflexivity.
  - unfold valid_block. zclosed.
Defined.

(** X6: where [size + headerWidth + (align - 1)] fits both [uint32_t] and
    [size_t], [aligned_malloc] calls [malloc] once, for exactly that many
    bytes, whether [malloc] then succeeds or not. *)
Theorem padded_request_exact pf nd a s p rest w :
  power_of_two pf a -> 0 < s ->
  s + headerReserve a < 2 ^ 32 -> s + headerReserve a < 2 ^ ptr_bits pf ->
  answers w = p :: rest ->
  trace (snd (aligned_malloc pf nd a s w))
  = trace w ++ [EvMalloc (s + headerReserve a) p].
Proof.
  intros Hpow Hs H32 HW Hans.
  pose proof (request_exact pf a s Hpow Hs H32 HW) as Hreq.
  pose proof (pow2_check_pow2 pf a Hpow) as Hchk.
  assert (Ha : a <> 0).
  { destruct Hpow as (k & Hk & ->). pose proof (pow2_lt pf k Hk). lia. }
  destruct (Z.eq_dec p NULL) as [E|NE].
  - rewrite (aligned_malloc_null pf nd a s w)
      by (try (rewrite Hchk; apply orb_true_r); try lia;
          rewrite Hans; exact E).
    simpl. rewrite Hreq, E. reflexivity.
  - rewrite (aligned_malloc_run pf nd a s p rest w)
      by (try (rewrite Hchk; apply orb_true_r); try lia; assumption).
    unfold store16. destruct (byte_addrs pf _). simpl.
    rewrite Hreq. reflexivity.
Qed.

Lemma padded_request_exact_witness :
  trace (snd (aligned_malloc lp64 false 32 1035 (world0 [8221])))
  = trace (world0 [8221]) ++ [EvMalloc (1035 + headerReserve 32) 8221].
Proof.
  apply (padded_request_exact lp64 false 32 1035 8221 [] (world0 [8221])).
  - exists 5. split; [zclosed | reflexivity].
  - lia.
  - zclosed.
  - zclosed.
  - reflexivity.
Defined.

(** X7: for a power-of-two alignment and a nonzero size whose padded
    request has room for the size and the header reserve, when [malloc]
    answers NULL or a valid block of the bytes requested, [aligned_malloc]
    returns NULL exactly when [malloc] answered NULL. *)
Theorem null_iff_malloc_failed pf nd a s p rest w :
  supported pf -> power_of_two pf a -> 0 < s ->
  answers w = p :: rest ->
  s + headerReserve a <= requested pf a s ->
  p = NULL \/ valid_block pf p (requested pf a s) ->
  exists q w1,
    aligned_malloc pf nd a s w = (Returned q, w1)
    /\ trace w1 = trace w ++ [EvMalloc (requested pf a s) p]
    /\ (q = NULL <-> p = NULL).
Proof.
  intros HW Hpow Hs Hans Hroom [E | Hvb].
  - pose proof (pow2_check_pow2 pf a Hpow) as Hchk.
    assert (Ha : a <> 0).
    { destruct Hpow as (k & Hk & ->). pose proof (pow2_lt pf k Hk). lia. }
    exists NULL. eexists. split; [|split; [|tauto]].
    + apply aligned_malloc_null;
        [rewrite Hchk; apply orb_true_r | lia | lia | rewrite Hans; exact E].
    + simpl. rewrite E. reflexivity.
  - destruct (requested_block pf a s p Hpow Hs Hvb Hroom) as [Ereq Hvb'].
    destruct (requested_block_range pf a s p Hpow Hs Hvb Hroom) as [Hp Hnn].
    destruct (aligned_malloc_header pf HW nd a s p rest w
                Hpow Hs Hans Hp Hnn)
      as (q & w1 & Hrun & _ & _ & Htr & _).
    destruct (aligned_pointer_in_reserve pf nd a s p rest w
                HW Hpow Hs Hans Hvb') as (q' & w1' & Hrun' & _ & Hq & _).
    rewrite Hrun in Hrun'. injection Hrun' as <- <-.
    exists q, w1. split; [exact Hrun|]. split; [exact Htr|].
    destruct Hvb. unfold NULL, PTR_OFFSET_SZ in *. lia.
Qed.

Lemma null_iff_malloc_failed_witness :
  exists q w1,
    aligned_malloc lp64 false 4 8 (world0 [12345]) = (Returned q, w1)
    /\ trace w1 = trace (world0 [12345]) ++ [EvMalloc (requested lp64 4 8) 12345]
    /\ (q = NULL <-> 12345 = NULL).
Proof.
  apply (null_iff_malloc_failed lp64 false 4 8 12345 [] (world0 [12345])).
  - unfold supported. zclosed.
  - exists 2. split; [zclosed | reflexivity].
  - lia.
  - reflexivity.
  - zclosed.
  - right. unfold valid_block. zclosed.
Defined.

(** X8: for every power-of-two alignment whose padded request has room
    for the size and the header reserve, also those the 16-bit header
    cannot serve, when [malloc] answered a valid block of the bytes
    requested, [aligned_free] after [aligned_malloc] hands to [free] the
    aligned pointer minus the distance reduced modulo [2 ^ 16]; this is
    the raw pointer exactly when the distance is below [2 ^ 16]. *)
Theorem round_trip_iff_distance_fits pf nd a s p rest w :
  supported pf -> power_of_two pf a -> 0 < s ->
  answers w = p :: rest ->
  valid_block pf p (requested pf a s) ->
  s + headerReserve a <= requested pf a s ->
  exists q w1 w2 r,
    aligned_malloc pf nd a s w = (Returned q, w1)
    /\ trace w1 = trace w ++ [EvMalloc (requested pf a s) p]
    /\ p + PTR_OFFSET_SZ <= q
    /\ aligned_free pf nd q w1 = (Returned tt, w2)
    /\ trace w2 = trace w1 ++ [EvFree r]
    /\ r = q - (q - p) mod 2 ^ 16
    /\ (r = p <-> q - p < 2 ^ 16).
Proof.
  intros HW Hpow Hs Hans Hvb0 Hroom.
  destruct (requested_block pf a s p Hpow Hs Hvb0 Hroom) as [Ereq Hvb].
  destruct (aligned_pointer_in_reserve pf nd a s p rest w HW Hpow Hs Hans Hvb)
    as (q & w1 & Hrun & Hld & Hq & _).
  destruct (requested_block_range pf a s p Hpow Hs Hvb0 Hroom) as [Hp Hnn].
  destruct (aligned_malloc_header pf HW nd a s p rest w Hpow Hs Hans Hp Hnn)
    as (q0 & w0 & Hrun0 & _ & _ & Htr & _).
  rewrite Hrun in Hrun0. injection Hrun0 as <- <-.
  destruct Hvb as [Hp0 Hpn]. unfold PTR_OFFSET_SZ in *.
  pose proof (Z.mod_pos_bound (q - p) (2 ^ 16) ltac:(lia)) as Hm.
  pose proof (Z.mod_le (q - p) (2 ^ 16) ltac:(lia) ltac:(lia)) as Hle.
  exists q, w1. eexists. exists (q - (q - p) mod 2 ^ 16).
  split; [exact Hrun|]. split; [exact Htr|]. split; [lia|]. split.
  { apply aligned_free_run; [|exact Hld].
    destruct (Z.eqb_spec q NULL) as [E|_]; [|apply orb_true_r].
    unfold NULL in E. lia. }
  split.
  { simpl. change (wrap offset_bits (q - p)) with ((q - p) mod 2 ^ 16).
    rewrite (wrap_small (ptr_bits pf)) by lia. reflexivity. }
  split; [reflexivity|].
  split.
  - intros E. assert (Hmod : (q - p) mod 2 ^ 16 = q - p) by lia.
    rewrite <- Hmod. lia.
  - intros Hlt. rewrite Z.mod_small by lia. lia.
Qed.

Lemma round_trip_iff_distance_fits_witness :
  exists q w1 w2 r,
    aligned_malloc lp64 false (2 ^ 20) 1 (world0 [1048000])
    = (Returned q, w1)
    /\ trace w1
       = trace (world0 [1048000])
         ++ [EvMalloc (requested lp64 (2 ^ 20) 1) 1048000]
    /\ 1048000 + PTR_OFFSET_SZ <= q
    /\ aligned_free lp64 false q w1 = (Returned tt, w2)
    /\ trace w2 = trace w1 ++ [EvFree r]
    /\ r = q - (q - 1048000) mod 2 ^ 16
    /\ (r = 1048000 <-> q - 1048000 < 2 ^ 16).
Proof.
  apply (round_trip_iff_distance_fits lp64 false (2 ^ 20) 1 1048000 []
           (world0 [1048000])).
  - unfold supported. zclosed.
  - exists 20. split; [zclosed | reflexivity].
  - lia.
  - reflexivity.
  - unfold valid_block. zclosed.
  - zclosed.
Defined.

(** X9: which calls [aligned_malloc] makes.  It never calls [free].  It
    calls [malloc] exactly when the assertion passes or is compiled out
    and both arguments are nonzero, and then once, for [requested] bytes,
    taking one answer of the allocator.  In every other case it makes no
    call and writes nothing: it returns NULL, or aborts at the
    assertion, and the world is as it was. *)
Theorem aligned_malloc_calls pf nd a s w :
  let r := fst (aligned_malloc pf nd a s w) in
  let w' := snd (aligned_malloc pf nd a s w) in
  free_calls (trace w') = free_calls (trace w)
  /\ ((nd || pow2_check pf a) && negb (a =? 0) && negb (s =? 0) = true
      -> trace w'
         = trace w ++ [EvMalloc (requested pf a s) (hd NULL (answers w))]
         /\ answers w' = tl (answers w))
  /\ ((nd || pow2_check pf a) && negb (a =? 0) && negb (s =? 0) = false
      -> w' = w
         /\ (r = Returned NULL /\ nd || pow2_check pf a = true
             \/ r = Aborted /\ nd || pow2_check pf a = false)).
Proof.
  intros r w'. subst r w'.
  assert (Hfilter : forall t n p,
             free_calls (t ++ [EvMalloc n p]) = free_calls t).
  { intros t n p. unfold free_calls. rewrite List.filter_app. simpl.
    apply app_nil_r. }
  destruct (nd || pow2_check pf a) eqn:Hc.
  - destruct (Z.eqb_spec a 0) as [Ea|Na].
    { rewrite aligned_malloc_guard by auto. simpl.
      split; [reflexivity|]. split; [discriminate|].
      intros _. split; [reflexivity | left; split; reflexivity]. }
    destruct (Z.eqb_spec s 0) as [Es|Ns].
    { rewrite aligned_malloc_guard by auto. simpl.
      split; [reflexivity|]. split; [discriminate|].
      intros _. split; [reflexivity | left; split; reflexivity]. }
    simpl.
    destruct (answers w) as [|p rest] eqn:Hans.
    + rewrite aligned_malloc_null
        by (try assumption; rewrite Hans; reflexivity).
      simpl. rewrite Hfilter, Hans.
      split; [reflexivity|]. split; [|discriminate].
      intros _. split; reflexivity.
    + destruct (Z.eq_dec p NULL) as [Ep|Np].
      * rewrite aligned_malloc_null
          by (try assumption; rewrite Hans; exact Ep).
        simpl. rewrite Hfilter, Hans, Ep.
        split; [reflexivity|]. split; [|discriminate].
        intros _. split; reflexivity.
      * rewrite (aligned_malloc_run pf nd a s p rest w) by assumption.
        unfold store16. destruct (byte_addrs pf _). simpl.
        rewrite Hfilter.
        split; [reflexivity|]. split; [|discriminate].
        intros _. split; reflexivity.
  - apply orb_false_elim in Hc. destruct Hc as [-> Hc].
    rewrite aligned_malloc_abort by exact Hc. simpl.
    split; [reflexivity|]. split; [discriminate|].
    intros _. split; [reflexivity | right; split; reflexivity].
Qed.

Lemma aligned_malloc_calls_witness :
  trace (snd (aligned_malloc lp64 false 32 1035 (world0 [8221])))
  = trace (world0 [8221])
    ++ [EvMalloc (requested lp64 32 1035) (hd NULL (answers (world0 [8221])))]
  /\ answers (snd (aligned_malloc lp64 false 32 1035 (world0 [8221])))
     = tl (answers (world0 [8221])).
Proof.
  apply (proj1 (proj2
           (aligned_malloc_calls lp64 false 32 1035 (world0 [8221])))).
  reflexivity.
Defined.

(** X10: whatever pointer it is given, [aligned_free] writes no memory and
    never calls [malloc]; it calls [free] once when it returns and not at
    all otherwise; and with the assertion compiled in, a null pointer
    makes it abort before anything is read or freed. *)
Theorem aligned_free_effects pf nd q w :
  let r := fst (aligned_free pf nd q w) in
  let w' := snd (aligned_free pf nd q w) in
  mem w' = mem w /\ answers w' = answers w
  /\ (r = Returned tt /\ (exists x, trace w' = trace w ++ [EvFree x])
      \/ r <> Returned tt /\ w' = w)
  /\ (nd = false -> q = NULL -> r = Aborted).
Proof.
  intros r w'. subst r w'.
  unfold aligned_free, bind, assert_.
  destruct (nd || negb (q =? NULL)) eqn:Hc.
  - pose proof (load16_world pf (wrap (ptr_bits pf) (q - PTR_OFFSET_SZ)) w)
      as Hw.
    destruct (load16 pf _ w) as [[off| |] w0]; simpl in Hw; subst w0; simpl.
    + split; [reflexivity|]. split; [reflexivity|]. split.
      * left. split; [reflexivity | eexists; reflexivity].
      * intros -> ->. simpl in Hc. discriminate.
    + split; [reflexivity|]. split; [reflexivity|]. split.
      * right. split; [discriminate | reflexivity].
      * intros -> ->. simpl in Hc. discriminate.
    + split; [reflexivity|]. split; [reflexivity|]. split.
      * right. split; [discriminate | reflexivity].
      * intros -> ->. simpl in Hc. discriminate.
  - simpl. split; [reflexivity|]. split; [reflexivity|]. split.
    + right. split; [discriminate | reflexivity].
    + reflexivity.
Qed.

Lemma aligned_free_effects_witness :
  fst (aligned_free lp64 false NULL (world0 [])) = Aborted.
Proof.
  apply (proj2 (proj2 (proj2
           (aligned_free_effects lp64 false NULL (world0 []))))).
  - reflexivity.
  - reflexivity.
Defined.

(** ** Several allocations *)

Section Compose.
Variable pf : platform.
Hypothesis HW : supported pf.

(** Everything a successful [aligned_malloc] on a valid block gives. *)
Lemma aligned_malloc_ok nd a s p rest w :
  power_of_two pf a -> 0 < s ->
  answers w = p :: rest -> valid_block pf p (s + headerReserve a) ->
  exists q w1,
    aligned_malloc pf nd a s w = (Returned q, w1)
    /\ answers w1 = rest
    /\ trace w1
       = trace w ++ [EvMalloc (wrap (ptr_bits pf) (s + hdr_size pf a)) p]
    /\ fst (load16 pf (wrap (ptr_bits pf) (q - PTR_OFFSET_SZ)) w1)
       = Returned (wrap offset_bits (q - p))
    /\ p + PTR_OFFSET_SZ <= q <= p + headerReserve a
    /\ q mod a = 0
    /\ forall c, c <> q - 2 -> c <> q - 1 -> mem w1 !! c = mem w !! c.
Proof.
  intros Hpow Hs Hans Hvb.
  assert (Hp : in_range pf p).
  { destruct Hvb as [Hp0 Hpn]. unfold in_range, headerReserve in *.
    destruct Hpow as (k & Hk & ->). pose proof (pow2_lt pf k Hk).
    unfold PTR_OFFSET_SZ in *. lia. }
  assert (Hnn : p <> NULL) by (destruct Hvb; unfold NULL; lia).
  destruct (aligned_malloc_header pf HW nd a s p rest w Hpow Hs Hans Hp Hnn)
    as (q & w1 & Hrun & _ & Hans1 & Htr & _ & _ & _ & _).
  destruct (aligned_pointer_in_reserve pf nd a s p rest w HW Hpow Hs Hans Hvb)
    as (q' & w1' & Hrun' & Hld & Hq & Hmod).
  destruct (header_write_only pf nd a s p rest w HW Hpow Hs Hans Hvb)
    as (q'' & w1'' & Hrun'' & Hfr).
  rewrite Hrun in Hrun', Hrun''.
  injection Hrun' as <- <-. injection Hrun'' as <- <-.
  exists q, w1. split; [exact Hrun|]. split; [exact Hans1|].
  split; [exact Htr|]. split; [rewrite Hld; reflexivity|].
  split; [exact Hq|]. split; [exact Hmod | exact Hfr].
Qed.

(** An [aligned_malloc] on a block leaves a header outside that block
    as it was. *)
Lemma aligned_malloc_keeps_header nd a s p rest w h q w1 :
  power_of_two pf a -> 0 < s ->
  answers w = p :: rest -> valid_block pf p (s + headerReserve a) ->
  0 <= h -> h + 1 < 2 ^ ptr_bits pf ->
  h + 2 <= p \/ p + (s + headerReserve a) <= h ->
  aligned_malloc pf nd a s w = (Returned q, w1) ->
  fst (load16 pf h w1) = fst (load16 pf h w).
Proof.
  intros Hpow Hs Hans Hvb Hh0 Hh1 Hout Hrun.
  destruct (aligned_malloc_ok nd a s p rest w Hpow Hs Hans Hvb)
    as (q' & w1' & Hrun' & _ & _ & _ & Hq & _ & Hfr).
  rewrite Hrun in Hrun'. injection Hrun' as <- <-.
  unfold PTR_OFFSET_SZ in *.
  apply load16_frame.
  - apply Hfr; lia.
  - rewrite wrap_small by lia. apply Hfr; lia.
Qed.

(** [aligned_free] on a pointer whose header holds the distance to the
    raw pointer. *)
Lemma aligned_free_ok nd q p w :
  fst (load16 pf (wrap (ptr_bits pf) (q - PTR_OFFSET_SZ)) w)
  = Returned (q - p) ->
  q <> NULL -> in_range pf p ->
  aligned_free pf nd q w
  = (Returned tt, World (mem w) (answers w) (trace w ++ [EvFree p])).
Proof.
  intros Hld Hq Hp. apply load16_pair in Hld.
  rewrite (aligned_free_run pf nd q (q - p) w).
  - replace (q - (q - p)) with p by lia.
    rewrite wrap_small by exact Hp. reflexivity.
  - destruct (Z.eqb_spec q NULL); [contradiction | apply orb_true_r].
  - exact Hld.
Qed.

End Compose.

(** X11: allocations do not disturb each other.  Take two calls of
    [aligned_malloc] with power-of-two alignments, the first with a header
    reserve the 16-bit header can hold, each with a padded request that
    has room for its size and header reserve, and let [malloc] answer two
    valid, disjoint blocks of the bytes requested.  The second call
    leaves the first header intact: [aligned_free] of the first pointer
    still hands the first raw pointer to [free]. *)
Theorem later_allocation_keeps_round_trip
  pf nd a1 s1 p1 a2 s2 p2 rest w :
  supported pf ->
  power_of_two pf a1 -> headerReserve a1 <= 65535 -> 0 < s1 ->
  power_of_two pf a2 -> 0 < s2 ->
  answers w = p1 :: p2 :: rest ->
  valid_block pf p1 (requested pf a1 s1) ->
  s1 + headerReserve a1 <= requested pf a1 s1 ->
  valid_block pf p2 (requested pf a2 s2) ->
  s2 + headerReserve a2 <= requested pf a2 s2 ->
  disjoint_blocks p1 (requested pf a1 s1) p2 (requested pf a2 s2) ->
  exists q1 w1 q2 w2 w3,
    aligned_malloc pf nd a1 s1 w = (Returned q1, w1)
    /\ aligned_malloc pf nd a2 s2 w1 = (Returned q2, w2)
    /\ trace w2 = trace w ++ [EvMalloc (requested pf a1 s1) p1;
                              EvMalloc (requested pf a2 s2) p2]
    /\ aligned_free pf nd q1 w2 = (Returned tt, w3)
    /\ trace w3 = trace w2 ++ [EvFree p1]
    /\ q1 mod a1 = 0 /\ q2 mod a2 = 0
    /\ (q1 + s1 <= q2 - PTR_OFFSET_SZ \/ q2 + s2 <= q1 - PTR_OFFSET_SZ).
Proof.
  intros HW Hp1 Hhr Hs1 Hp2 Hs2 Hans Hv1r Hr1 Hv2r Hr2 Hdis.
  destruct (requested_block pf a1 s1 p1 Hp1 Hs1 Hv1r Hr1) as [E1 Hv1].
  destruct (requested_block pf a2 s2 p2 Hp2 Hs2 Hv2r Hr2) as [E2 Hv2].
  rewrite E1, E2 in Hdis.
  destruct (aligned_malloc_ok pf HW nd a1 s1 p1 (p2 :: rest) w
              Hp1 Hs1 Hans Hv1)
    as (q1 & w1 & Hrun1 & Hans1 & Ht1 & Hld1 & Hq1 & Hm1 & _).
  destruct (aligned_malloc_ok pf HW nd a2 s2 p2 rest w1 Hp2 Hs2 Hans1 Hv2)
    as (q2 & w2 & Hrun2 & _ & Ht2 & _ & Hq2 & Hm2 & _).
  destruct Hv1 as [Hp10 Hp1n]. unfold PTR_OFFSET_SZ in *.
  assert (Hh : wrap (ptr_bits pf) (q1 - 2) = q1 - 2)
    by (apply wrap_small; lia).
  assert (Hoff : wrap offset_bits (q1 - p1) = q1 - p1).
  { apply wrap_small. unfold offset_bits. change (2 ^ 16) with 65536. lia. }
  assert (Hld2 : fst (load16 pf (wrap (ptr_bits pf) (q1 - 2)) w2)
                 = Returned (q1 - p1)).
  { rewrite <- Hoff, <- Hld1, Hh.
    apply (aligned_malloc_keeps_header pf HW nd a2 s2 p2 rest w1
             (q1 - 2) q2 w2 Hp2 Hs2 Hans1 Hv2); try lia; [|exact Hrun2].
    unfold disjoint_blocks in Hdis. lia. }
  exists q1, w1, q2, w2. eexists.
  split; [exact Hrun1|]. split; [exact Hrun2|]. split.
  { rewrite Ht2, Ht1, <- app_assoc. unfold requested. reflexivity. }
  split.
  - apply (aligned_free_ok pf nd q1 p1 w2 Hld2).
    + unfold NULL. lia.
    + unfold in_range. lia.
  - split; [reflexivity|]. split; [assumption|]. split; [assumption|].
    destruct Hv2 as [Hp20 Hp2n]. unfold disjoint_blocks in Hdis. lia.
Qed.

Lemma later_allocation_keeps_round_trip_witness :
  exists q1 w1 q2 w2 w3,
    aligned_malloc ilp32 false 8 100 (world0 [4099; 4208]) = (Returned q1, w1)
    /\ aligned_malloc ilp32 false 65536 7 w1 = (Returned q2, w2)
    /\ trace w2 = trace (world0 [4099; 4208])
                  ++ [EvMalloc (requested ilp32 8 100) 4099;
                      EvMalloc (requested ilp32 65536 7) 4208]
    /\ aligned_free ilp32 false q1 w2 = (Returned tt, w3)
    /\ trace w3 = trace w2 ++ [EvFree 4099]
    /\ q1 mod 8 = 0 /\ q2 mod 65536 = 0
    /\ (q1 + 100 <= q2 - PTR_OFFSET_SZ \/ q2 + 7 <= q1 - PTR_OFFSET_SZ).
Proof.
  apply (later_allocation_keeps_round_trip ilp32 false 8 100 4099
           65536 7 4208 [] (world0 [4099; 4208])).
  - unfold supported. zclosed.
  - exists 3. split; [zclosed | reflexivity].
  - unfold headerReserve, PTR_OFFSET_SZ. lia.
  - lia.
  - exists 16. split; [zclosed | reflexivity].
  - lia.
  - reflexivity.
  - unfold valid_block. zclosed.
  - zclosed.
  - unfold valid_block. zclosed.
  - zclosed.
  - unfold disjoint_blocks. left. zclosed.
Defined.

(** ** The demonstration program, run *)

Lemma io_bind_lift {A B} (m : M A) (k : A -> IO B) w o a w' :
  m w = (Returned a, w') -> io_bind (lift m) k (w, o) = k a (w', o).
Proof.
  intros Hm. unfold io_bind, lift. simpl. rewrite Hm. reflexivity.
Qed.

Lemma io_bind_lift_abort {A B} (m : M A) (k : A -> IO B) w o w' :
  m w = (Aborted, w') -> io_bind (lift m) k (w, o) = (Aborted, (w', o)).
Proof.
  intros Hm. unfold io_bind, lift. simpl. rewrite Hm. reflexivity.
Qed.

Lemma io_bind_printf {B} ps (k : unit -> IO B) w o :
  io_bind (printf ps) k (w, o) = k tt (w, o ++ ps).
Proof. reflexivity. Qed.

Lemma malloc_answer n p rest w :
  answers w = p :: rest ->
  malloc n w = (Returned p, World (mem w) rest (trace w ++ [EvMalloc n p])).
Proof. intros Hans. unfold malloc. rewrite Hans. reflexivity. Qed.

(** The three requests of [main], on every supported platform. *)
Lemma main_requests pf :
  supported pf ->
  wrap (ptr_bits pf) (100 + hdr_size pf 8) = 109
  /\ wrap (ptr_bits pf) (1035 + hdr_size pf 32) = 1068
  /\ wrap (ptr_bits pf) (8 + hdr_size pf 4) = 13
  /\ power_of_two pf 8 /\ power_of_two pf 32 /\ power_of_two pf 4.
Proof.
  intros HW. unfold supported in HW.
  assert (H16 : 2 ^ 16 <= 2 ^ ptr_bits pf) by (apply Z.pow_le_mono_r; lia).
  change (2 ^ 16) with 65536 in H16.
  assert (P8 : power_of_two pf 8) by (exists 3; split; [lia | reflexivity]).
  assert (P32 : power_of_two pf 32) by (exists 5; split; [lia | reflexivity]).
  assert (P4 : power_of_two pf 4) by (exists 2; split; [lia | reflexivity]).
  split; [|split; [|split; [|auto]]].
  - rewrite (request_exact pf 8 100 P8); unfold headerReserve, PTR_OFFSET_SZ;
      try reflexivity; lia.
  - rewrite (request_exact pf 32 1035 P32); unfold headerReserve, PTR_OFFSET_SZ;
      try reflexivity; lia.
  - rewrite (request_exact pf 4 8 P4); unfold headerReserve, PTR_OFFSET_SZ;
      try reflexivity; lia.
Qed.

(** X12: [main], against an allocator that answers three blocks of any
    kind for the plain requests and three valid, pairwise disjoint blocks
    for the aligned ones, returns 0; the three aligned pointers it prints
    are multiples of 8, 32 and 4; and every block it obtained goes back to
    [free] exactly once, the aligned ones through their raw pointers. *)
Theorem main_runs pf nd p q r px py pz rest w o :
  supported pf ->
  answers w = p :: q :: r :: px :: py :: pz :: rest ->
  valid_block pf px 109 -> valid_block pf py 1068 -> valid_block pf pz 13 ->
  disjoint_blocks px 109 py 1068 -> disjoint_blocks px 109 pz 13 ->
  disjoint_blocks py 1068 pz 13 ->
  exists x y z w' o',
    main pf nd (w, o) = (Returned 0, (w', o'))
    /\ x mod 8 = 0 /\ y mod 32 = 0 /\ z mod 4 = 0
    /\ printed_pointers o' = printed_pointers o ++ [p; q; r; x; y; z]
    /\ answers w' = rest
    /\ trace w'
       = trace w ++ [EvMalloc 103 p; EvMalloc 1000 q; EvMalloc 7 r;
                     EvMalloc 109 px; EvMalloc 1068 py; EvMalloc 13 pz;
                     EvFree px; EvFree py; EvFree pz;
                     EvFree p; EvFree q; EvFree r].
Proof.
  intros HW Hans Hvx Hvy Hvz Dxy Dxz Dyz.
  destruct (main_requests pf HW) as (R8 & R32 & R4 & P8 & P32 & P4).
  set (wA := World (mem w) (q :: r :: px :: py :: pz :: rest)
                   (trace w ++ [EvMalloc 103 p])).
  assert (HA : malloc 103 w = (Returned p, wA))
    by (apply malloc_answer; exact Hans).
  set (wB := World (mem wA) (r :: px :: py :: pz :: rest)
                   (trace wA ++ [EvMalloc 1000 q])).
  assert (HB : malloc 1000 wA = (Returned q, wB))
    by (apply malloc_answer; reflexivity).
  set (wC := World (mem wB) (px :: py :: pz :: rest)
                   (trace wB ++ [EvMalloc 7 r])).
  assert (HC : malloc 7 wB = (Returned r, wC))
    by (apply malloc_answer; reflexivity).
  destruct (aligned_malloc_ok pf HW nd 8 100 px (py :: pz :: rest) wC
              P8 ltac:(lia) eq_refl Hvx)
    as (x & wx & Hx & Ax & Tx & Lx & Qx & Mx & _).
  destruct (aligned_malloc_ok pf HW nd 32 1035 py (pz :: rest) wx
              P32 ltac:(lia) Ax Hvy)
    as (y & wy & Hy & Ay & Ty & Ly & Qy & My & _).
  destruct (aligned_malloc_ok pf HW nd 4 8 pz rest wy
              P4 ltac:(lia) Ay Hvz)
    as (z & wz & Hz & Az & Tz & Lz & Qz & Mz & _).
  unfold headerReserve, PTR_OFFSET_SZ in Qx, Qy, Qz.
  unfold disjoint_blocks in *.
  destruct Hvx as [Hx0 Hxn], Hvy as [Hy0 Hyn], Hvz as [Hz0 Hzn].
  assert (Vx : valid_block pf px (100 + headerReserve 8))
    by (split; [lia | exact Hxn]).
  assert (Vy : valid_block pf py (1035 + headerReserve 32))
    by (split; [lia | exact Hyn]).
  assert (Vz : valid_block pf pz (8 + headerReserve 4))
    by (split; [lia | exact Hzn]).
  assert (S16 : forall d, 0 <= d < 65536 -> wrap offset_bits d = d)
    by (intros d Hd; apply wrap_small; exact Hd).
  assert (Wx : wrap (ptr_bits pf) (x - PTR_OFFSET_SZ) = x - 2)
    by (apply wrap_small; unfold PTR_OFFSET_SZ; lia).
  assert (Wy : wrap (ptr_bits pf) (y - PTR_OFFSET_SZ) = y - 2)
    by (apply wrap_small; unfold PTR_OFFSET_SZ; lia).
  rewrite S16 in Lx, Ly, Lz by lia.
  (* the headers of x and y survive the later allocations *)
  assert (Lx' : fst (load16 pf (wrap (ptr_bits pf) (x - PTR_OFFSET_SZ)) wz)
                = Returned (x - px)).
  { rewrite <- Lx, Wx.
    rewrite (aligned_malloc_keeps_header pf HW nd 4 8 pz rest wy
               (x - 2) z wz P4 ltac:(lia) Ay Vz)
      by (try exact Hz; unfold headerReserve, PTR_OFFSET_SZ; lia).
    apply (aligned_malloc_keeps_header pf HW nd 32 1035 py (pz :: rest) wx
             (x - 2) y wy P32 ltac:(lia) Ax Vy);
      try exact Hy; unfold headerReserve, PTR_OFFSET_SZ; lia. }
  assert (Ly' : fst (load16 pf (wrap (ptr_bits pf) (y - PTR_OFFSET_SZ)) wz)
                = Returned (y - py)).
  { rewrite <- Ly, Wy.
    apply (aligned_malloc_keeps_header pf HW nd 4 8 pz rest wy
             (y - 2) z wz P4 ltac:(lia) Ay Vz);
      try exact Hz; unfold headerReserve, PTR_OFFSET_SZ; lia. }
  (* the three releases *)
  set (w1 := World (mem wz) (answers wz) (trace wz ++ [EvFree px])).
  assert (F1 : aligned_free pf nd x wz = (Returned tt, w1)).
  { apply aligned_free_ok; [exact Lx' | unfold NULL; lia
                           | unfold in_range; lia]. }
  set (w2 := World (mem w1) (answers w1) (trace w1 ++ [EvFree py])).
  assert (F2 : aligned_free pf nd y w1 = (Returned tt, w2)).
  { apply aligned_free_ok; [| unfold NULL; lia | unfold in_range; lia].
    rewrite (load16_frame pf _ wz w1) by reflexivity. exact Ly'. }
  set (w3 := World (mem w2) (answers w2) (trace w2 ++ [EvFree pz])).
  assert (F3 : aligned_free pf nd z w2 = (Returned tt, w3)).
  { apply aligned_free_ok; [| unfold NULL; lia | unfold in_range; lia].
    rewrite (load16_frame pf _ wz w2) by reflexivity. exact Lz. }
  exists x, y, z. eexists. eexists. split.
  { unfold main.
    rewrite (io_bind_lift _ _ _ _ _ _ HA).
    rewrite (io_bind_lift _ _ _ _ _ _ HB).
    rewrite (io_bind_lift _ _ _ _ _ _ HC).
    rewrite (io_bind_lift _ _ _ _ _ _ Hx).
    rewrite (io_bind_lift _ _ _ _ _ _ Hy).
    rewrite (io_bind_lift _ _ _ _ _ _ Hz).
    rewrite !io_bind_printf.
    rewrite (io_bind_lift _ _ _ _ _ _ F1).
    rewrite (io_bind_lift _ _ _ _ _ _ F2).
    rewrite (io_bind_lift _ _ _ _ _ _ F3).
    unfold io_bind, lift, free, io_ret. simpl. reflexivity. }
  split; [exact Mx|]. split; [exact My|]. split; [exact Mz|].
  split.
  { unfold printed_pointers. rewrite !flat_map_app. simpl.
    rewrite <- !app_assoc. reflexivity. }
  split; [simpl; exact Az|].
  simpl. rewrite Tz, Ty, Tx, R8, R32, R4. simpl.
  rewrite <- !app_assoc. reflexivity.
Qed.

Lemma main_runs_witness :
  exists x y z w' o',
    main lp64 false (world0 [100; 200; 300; 4099; 8221; 12345], [])
    = (Returned 0, (w', o'))
    /\ x mod 8 = 0 /\ y mod 32 = 0 /\ z mod 4 = 0
    /\ printed_pointers o' = printed_pointers [] ++ [100; 200; 300; x; y; z]
    /\ answers w' = []
    /\ trace w'
       = trace (world0 [100; 200; 300; 4099; 8221; 12345])
         ++ [EvMalloc 103 100; EvMalloc 1000 200; EvMalloc 7 300;
             EvMalloc 109 4099; EvMalloc 1068 8221; EvMalloc 13 12345;
             EvFree 4099; EvFree 8221; EvFree 12345;
             EvFree 100; EvFree 200; EvFree 300].
Proof.
  apply (main_runs lp64 false 100 200 300 4099 8221 12345 []
           (world0 [100; 200; 300; 4099; 8221; 12345]) []).
  - unfold supported. zclosed.
  - reflexivity.
  - unfold valid_block. zclosed.
  - unfold valid_block. zclosed.
  - unfold valid_block. zclosed.
  - unfold disjoint_blocks. lia.
  - unfold disjoint_blocks. lia.
  - unfold disjoint_blocks. lia.
Defined.

(** With a power-of-two alignment and a nonzero size, [aligned_malloc]
    returns after one call of [malloc], having taken one answer. *)
Lemma one_malloc_call pf nd a s w :
  power_of_two pf a -> 0 < s ->
  exists q,
    aligned_malloc pf nd a s w
    = (Returned q, snd (aligned_malloc pf nd a s w))
    /\ trace (snd (aligned_malloc pf nd a s w))
       = trace w ++ [EvMalloc (wrap (ptr_bits pf) (s + hdr_size pf a))
                       (hd NULL (answers w))]
    /\ answers (snd (aligned_malloc pf nd a s w)) = tl (answers w).
Proof.
  intros Hpow Hs.
  pose proof (pow2_check_pow2 pf a Hpow) as Hchk.
  assert (Hc : nd || pow2_check pf a = true)
    by (rewrite Hchk; apply orb_true_r).
  assert (Ha : a <> 0).
  { destruct Hpow as (k & Hk & ->). pose proof (pow2_lt pf k Hk). lia. }
  destruct (answers w) as [|p rest] eqn:Hans.
  - rewrite aligned_malloc_null
      by (try assumption; try lia; rewrite Hans; reflexivity).
    rewrite Hans. simpl. eexists. repeat split.
  - destruct (Z.eq_dec p NULL) as [Ep|Np].
    + rewrite aligned_malloc_null
        by (try assumption; try lia; rewrite Hans; exact Ep).
      rewrite Hans, Ep. simpl. eexists. repeat split.
    + rewrite (aligned_malloc_run pf nd a s p rest w)
        by (try assumption; lia).
      unfold store16. destruct (byte_addrs pf _). simpl.
      eexists. repeat split.
Qed.

(** X13: [main] does not check what [aligned_malloc] returns.  When the
    allocator answers NULL to the first aligned request, and NULL or a
    valid block of the bytes requested to the other two, [main], built
    with the assertion compiled in, does not return: it aborts at
    [assert(ptr)] in the first [aligned_free], after its six calls of
    [malloc] and without any call of [free], so the blocks it did obtain
    are not released. *)
Theorem main_aborts_on_failed_allocation pf p q r py pz rest w o :
  supported pf ->
  answers w = p :: q :: r :: NULL :: py :: pz :: rest ->
  py = NULL \/ valid_block pf py 1068 ->
  pz = NULL \/ valid_block pf pz 13 ->
  exists w' o',
    main pf false (w, o) = (Aborted, (w', o'))
    /\ free_calls (trace w') = free_calls (trace w)
    /\ trace w'
       = trace w ++ [EvMalloc 103 p; EvMalloc 1000 q; EvMalloc 7 r;
                     EvMalloc 109 NULL; EvMalloc 1068 py; EvMalloc 13 pz].
Proof.
  intros HW Hans _ _.
  destruct (main_requests pf HW) as (R8 & R32 & R4 & P8 & P32 & P4).
  set (wA := World (mem w) (q :: r :: NULL :: py :: pz :: rest)
                   (trace w ++ [EvMalloc 103 p])).
  assert (HA : malloc 103 w = (Returned p, wA))
    by (apply malloc_answer; exact Hans).
  set (wB := World (mem wA) (r :: NULL :: py :: pz :: rest)
                   (trace wA ++ [EvMalloc 1000 q])).
  assert (HB : malloc 1000 wA = (Returned q, wB))
    by (apply malloc_answer; reflexivity).
  set (wC := World (mem wB) (NULL :: py :: pz :: rest)
                   (trace wB ++ [EvMalloc 7 r])).
  assert (HC : malloc 7 wB = (Returned r, wC))
    by (apply malloc_answer; reflexivity).
  pose proof (aligned_malloc_null pf false 8 100 wC
                ltac:(rewrite (pow2_check_pow2 pf 8 P8); reflexivity)
                ltac:(lia) ltac:(lia) eq_refl) as Hx.
  cbv zeta in Hx. rewrite R8 in Hx.
  set (wx := World (mem wC) (tl (answers wC)) _) in Hx.
  pose proof (one_malloc_call pf false 32 1035 wx P32 ltac:(lia))
    as (y & Hy & Ty & Ay).
  rewrite R32 in Ty.
  set (wy := snd (aligned_malloc pf false 32 1035 wx)) in *.
  pose proof (one_malloc_call pf false 4 8 wy P4 ltac:(lia))
    as (z & Hz & Tz & Az).
  rewrite R4 in Tz.
  set (wz := snd (aligned_malloc pf false 4 8 wy)) in *.
  assert (F1 : aligned_free pf false NULL wz = (Aborted, wz))
    by reflexivity.
  assert (Htrace :
            trace wz
            = trace w ++ [EvMalloc 103 p; EvMalloc 1000 q; EvMalloc 7 r;
                          EvMalloc 109 NULL; EvMalloc 1068 py;
                          EvMalloc 13 pz]).
  { rewrite Tz, Ay, Ty. simpl. rewrite <- !app_assoc. reflexivity. }
  exists wz. eexists. split.
  { unfold main.
    rewrite (io_bind_lift _ _ _ _ _ _ HA).
    rewrite (io_bind_lift _ _ _ _ _ _ HB).
    rewrite (io_bind_lift _ _ _ _ _ _ HC).
    rewrite (io_bind_lift _ _ _ _ _ _ Hx).
    rewrite (io_bind_lift _ _ _ _ _ _ Hy).
    rewrite (io_bind_lift _ _ _ _ _ _ Hz).
    rewrite !io_bind_printf.
    rewrite (io_bind_lift_abort _ _ _ _ _ F1). reflexivity. }
  split; [|exact Htrace].
  rewrite Htrace. unfold free_calls. rewrite List.filter_app. simpl.
  apply app_nil_r.
Qed.

Lemma main_aborts_on_failed_allocation_witness :
  exists w' o',
    main ilp32 false (world0 [100; 200; 300; NULL; 8221; NULL], [])
    = (Aborted, (w', o'))
    /\ free_calls (trace w')
       = free_calls (trace (world0 [100; 200; 300; NULL; 8221; NULL]))
    /\ trace w'
       = trace (world0 [100; 200; 300; NULL; 8221; NULL])
         ++ [EvMalloc 103 100; EvMalloc 1000 200; EvMalloc 7 300;
             EvMalloc 109 NULL; EvMalloc 1068 8221; EvMalloc 13 NULL].
Proof.
  apply (main_aborts_on_failed_allocation ilp32 100 200 300 8221 NULL []
           (world0 [100; 200; 300; NULL; 8221; NULL]) []).
  - unfold supported. zclosed.
  - reflexivity.
  - right. unfold valid_block. zclosed.
  - left. reflexivity.
Defined.

(** Rounding up by division: the least multiple that is not below. *)
Lemma round_up_least a x :
  0 < a ->
  x <= a * ((x + (a - 1)) / a) < x + a
  /\ forall m, m mod a = 0 -> x <= m -> a * ((x + (a - 1)) / a) <= m.
Proof.
  intros Ha. set (y := x + (a - 1)).
  pose proof (Z.div_mod y a ltac:(lia)) as Hd.
  pose proof (Z.mod_pos_bound y a ltac:(lia)) as Hm.
  split; [unfold y in *; lia|].
  intros m Hmm Hxm.
  apply Z.mod_divide in Hmm; [|lia]. destruct Hmm as [c ->].
  assert (y / a < c + 1); [|nia].
  apply Z.div_lt_upper_bound; [lia|]. unfold y. nia.
Qed.

(** X14: when [malloc] answered a valid block of the bytes requested and
    the request has room for the size and the header reserve, the pointer
    [aligned_malloc] returns is the lowest multiple of the alignment that
    is not below the raw pointer plus the header width: it is a multiple,
    it is at least [p + headerWidth], and every multiple that is at least
    [p + headerWidth] is at least the pointer. *)
Theorem aligned_pointer_is_lowest pf nd a s p rest w :
  supported pf -> power_of_two pf a -> 0 < s ->
  answers w = p :: rest ->
  valid_block pf p (requested pf a s) ->
  s + headerReserve a <= requested pf a s ->
  exists q w1,
    aligned_malloc pf nd a s w = (Returned q, w1)
    /\ q mod a = 0
    /\ p + PTR_OFFSET_SZ <= q
    /\ forall m, m mod a = 0 -> p + PTR_OFFSET_SZ <= m -> q <= m.
Proof.
  intros HW Hpow Hs Hans Hvb0 Hroom.
  destruct (requested_block pf a s p Hpow Hs Hvb0 Hroom) as [Ereq Hvb].
  destruct (requested_block_range pf a s p Hpow Hs Hvb0 Hroom) as [Hp Hnn].
  destruct (aligned_malloc_header pf HW nd a s p rest w Hpow Hs Hans Hp Hnn)
    as (q & w1 & Hrun & Hq & _ & _ & _ & _ & Hmod & _).
  exists q, w1. split; [exact Hrun|]. split; [exact Hmod|].
  destruct Hpow as (k & Hk & ->). pose proof (pow2_lt pf k Hk) as Hpk.
  destruct Hvb as [Hp0 Hpn]. unfold headerReserve, PTR_OFFSET_SZ in *.
  rewrite align_up_pow2 in Hq by exact Hk.
  rewrite (wrap_small _ (p + 2)) in Hq by lia.
  rewrite wrap_small in Hq by lia.
  rewrite Hq.
  pose proof (round_up_least (2 ^ k) (p + 2) ltac:(lia)) as [Hb Hleast].
  split; [lia | exact Hleast].
Qed.

Lemma aligned_pointer_is_lowest_witness :
  exists q w1,
    aligned_malloc lp64 false 4096 7 (world0 [4095]) = (Returned q, w1)
    /\ q mod 4096 = 0
    /\ 4095 + PTR_OFFSET_SZ <= q
    /\ forall m, m mod 4096 = 0 -> 4095 + PTR_OFFSET_SZ <= m -> q <= m.
Proof.
  apply (aligned_pointer_is_lowest lp64 false 4096 7 4095 [] (world0 [4095])).
  - unfold supported. zclosed.
  - exists 12. split; [zclosed | reflexivity].
  - lia.
  - reflexivity.
  - unfold valid_block. zclosed.
  - zclosed.
Defined.
